(** * yychat-server: the channel registry and the message relay

    A shallow embedding of [src/index.ts] (the [Channels] class, the HTTP
    routes and the WebSocket [/messages] route) and of the minimal variant of
    the same server in the second source file, which keeps the registry in
    two module-level variables and validates less.

    JavaScript runs every handler to completion on one thread, so a handler
    is a function from the state before it to its result and the state after.
    An exception is a [Throw] result; state written before the [throw] stays
    written. *)

From Stdlib Require Import ZArith NArith List Sorted Bool Lia String Ascii.
Import ListNotations.
Local Open Scope Z_scope.

(** ** JavaScript values *)

(** A JS string is a sequence of UTF-16 code units; [s.length] is the length
    of that sequence and [===] compares the sequences. *)
Definition code_unit : Type := N.
Definition jsstring : Type := list code_unit.

(** The string literal of the source, for literals made of ASCII characters. *)
Definition lit (s : string) : jsstring :=
  map N_of_ascii (list_ascii_of_string s).

Fixpoint jsstring_eqb (a b : jsstring) : bool :=
  match a, b with
  | [], [] => true
  | x :: a', y :: b' => N.eqb x y && jsstring_eqb a' b'
  | _, _ => false
  end.

(** A JS number is an IEEE double. The program never computes with a
    fraction: it compares numbers as [Map] keys and counts upwards from 1. So a
    number is kept as what it denotes: an integer, a fraction [m / 2^e] with
    [m] odd, NaN or an infinity. [-0] is [Int 0]: a [Map] treats the two zeros
    as one key and JSON.stringify prints both as [0]. *)
Inductive number : Type :=
  | Int (z : Z)
  | Frac (m : Z) (e : positive)
  | NaN
  | Infinity (negative : bool).

(** The comparison a [Map] uses on its keys (NaN is equal to NaN). *)
Definition SameValueZero (a b : number) : bool :=
  match a, b with
  | Int x, Int y => Z.eqb x y
  | Frac m e, Frac m' e' => Z.eqb m m' && Pos.eqb e e'
  | NaN, NaN => true
  | Infinity s, Infinity s' => Bool.eqb s s'
  | _, _ => false
  end.

(** [Number.MAX_SAFE_INTEGER + 1]: up to here every integer is a double. *)
Definition two53 : Z := 2 ^ 53.

(** [n + 1] on a double that holds an integer [0 <= n <= 2^53]: exact below
    [2^53]; [2^53 + 1] is not a double and rounds (to even) back to [2^53]. *)
Definition js_succ (n : Z) : Z :=
  if n <? two53 then n + 1 else n.

(** What [JSON.parse] returns. An object keeps its own properties in
    insertion order. *)
#[local] Set Warnings "-register-all".
Inductive json : Type :=
  | JNull
  | JBool (b : bool)
  | JNumber (n : number)
  | JString (s : jsstring)
  | JArray (items : list json)
  | JObject (props : list (jsstring * json)).

(** [value.key] for a value of type [unknown] that is known not to be
    [null]: the own property of an object, [undefined] ([None]) otherwise. An
    array has only indices and [length]; none of the keys read by this program
    is inherited from a prototype. *)
Fixpoint lookup_prop (key : jsstring) (props : list (jsstring * json))
  : option json :=
  match props with
  | [] => None
  | (k, v) :: rest => if jsstring_eqb k key then Some v else lookup_prop key rest
  end.

Definition get_prop (value : json) (key : jsstring) : option json :=
  match value with
  | JObject props => lookup_prop key props
  | _ => None
  end.

(** ** [Map<number, V>]

    A [Map] iterates in insertion order; [set] on a key that is present keeps
    the key's place, [delete] removes the entry. *)
Module JsMap.
Section WithValue.
Context {V : Type}.

Definition t : Type := list (number * V).

Definition empty : t := [].

Fixpoint get (k : number) (m : t) : option V :=
  match m with
  | [] => None
  | (k', v) :: rest => if SameValueZero k' k then Some v else get k rest
  end.

Fixpoint set (k : number) (v : V) (m : t) : t :=
  match m with
  | [] => [(k, v)]
  | (k', v') :: rest =>
      if SameValueZero k' k then (k', v) :: rest else (k', v') :: set k v rest
  end.

Definition delete (k : number) (m : t) : t :=
  filter (fun entry => negb (SameValueZero (fst entry) k)) m.

Definition values (m : t) : list V := map snd m.

Definition keys (m : t) : list number := map fst m.

Definition size (m : t) : nat := List.length m.
End WithValue.
Arguments t : clear implicits.
End JsMap.

(** ** Completions: a handler returns or throws *)

Inductive Completion (E A : Type) : Type :=
  | Return (a : A)
  | Throw (e : E).
Arguments Return {E A} a.
Arguments Throw {E A} e.

(** ** The data model of [src/index.ts] *)

Module Message.
Record t : Type := mk { userName : jsstring; text : jsstring }.
End Message.

Module Channel.
Record t : Type := mk {
  id : number;
  name : jsstring;
  messages : list Message.t
}.

(** [{ ...channel, name }] *)
Definition with_name (channel : t) (name' : jsstring) : t :=
  mk (id channel) name' (messages channel).

(** [channel.messages.push(message)]. The array belongs to one live record
    at a time: [changeName] hands it from the record it replaces to the
    copy it stores. *)
Definition push (channel : t) (message : Message.t) : t :=
  mk (id channel) (name channel) (messages channel ++ [message]).
End Channel.

(** Every [new Error(message)] of the two files, by its message. *)
Inductive Error : Type :=
  | ChannelDoesNotExist     (* 'チャネルが存在しません。' *)
  | NameEmpty               (* 'チャネル名は1文字以上にしてください。' *)
  | NameTooLong             (* 'チャネル名は15文字以内にしてください。' *)
  | NameNotAlphanumeric     (* 'チャネル名は半角英数にしてください。' *)
  | NameAlreadyUsed         (* 'すでに存在しているチャネル名は使用できません。' *)
  | NameParameterMissing    (* 'name parameter is missing' *)
  | NameParameterNotString  (* 'name parameter is not a string value' *)
  | NameNotEntered.         (* 'チャンネル名を入力してください。' *)

(** The code throws plain [Error]s; the specification sorts them in two
    kinds. *)
Inductive ErrorKind : Type := ValidationError | NotFoundError.

Definition kind_of (e : Error) : ErrorKind :=
  match e with
  | ChannelDoesNotExist => NotFoundError
  | _ => ValidationError
  end.

(** The fields of [class Channels]. [nextChannelId] starts at 1 and is only
    ever incremented, so it holds an integer. *)
Record Channels : Type := mkChannels {
  channels : JsMap.t Channel.t;
  nextChannelId : Z
}.

(** A method of [Channels]: it reads and writes [this] and returns or
    throws. *)
Definition Method (A : Type) : Type := Channels -> Completion Error A * Channels.

Definition ret {A} (a : A) : Method A := fun this => (Return a, this).
Definition throw {A} (e : Error) : Method A := fun this => (Throw e, this).
Definition bind {A B} (m : Method A) (k : A -> Method B) : Method B :=
  fun this =>
    match m this with
    | (Return a, this') => k a this'
    | (Throw e, this') => (Throw e, this')
    end.
Definition read : Method Channels := fun this => (Return this, this).

Notation "x <- m ;; k" := (bind m (fun x => k))
  (at level 61, m at next level, right associativity).
Notation "m ;; k" := (bind m (fun _ => k))
  (at level 61, right associativity).

(** [if (c) { throw new Error(...) }] *)
Definition throw_if (c : bool) (e : Error) : Method unit :=
  if c then throw e else ret tt.

(** [/^[A-Za-z0-9_-]*$/.test(name)]: without the [m] flag [$] is the end of
    the input, so the test is that every code unit is in the class. *)
Definition in_name_class (u : code_unit) : bool :=
  ((65 <=? u) && (u <=? 90) || (97 <=? u) && (u <=? 122)
   || (48 <=? u) && (u <=? 57) || (u =? 95) || (u =? 45))%N.

Definition name_regex_test (name : jsstring) : bool :=
  forallb in_name_class name.

Definition validateChannelName (name : jsstring) : Method unit :=
  throw_if (Nat.eqb (List.length name) 0) NameEmpty ;;
  throw_if (Nat.ltb 15 (List.length name)) NameTooLong ;;
  throw_if (negb (name_regex_test name)) NameNotAlphanumeric ;;
  this <- read ;;
  throw_if
    (existsb (fun channel => jsstring_eqb (Channel.name channel) name)
       (JsMap.values (channels this)))
    NameAlreadyUsed.

(** [return this.nextChannelId++] *)
Definition issueNextChannelId : Method number :=
  fun this =>
    (Return (Int (nextChannelId this)),
     mkChannels (channels this) (js_succ (nextChannelId this))).

(** [this.channels.set(id, channel)] *)
Definition channels_set (id : number) (channel : Channel.t) : Method unit :=
  fun this =>
    (Return tt, mkChannels (JsMap.set id channel (channels this)) (nextChannelId this)).

Definition create (name : jsstring) : Method Channel.t :=
  validateChannelName name ;;
  id <- issueNextChannelId ;;
  let channel := Channel.mk id name [] in
  channels_set (Channel.id channel) channel ;;
  ret channel.

Definition getChannel (id : number) (this : Channels) : option Channel.t :=
  JsMap.get id (channels this).

Definition changeName (id : number) (name : jsstring) : Method Channel.t :=
  this <- read ;;
  match JsMap.get id (channels this) with
  | None => throw ChannelDoesNotExist
  | Some channel =>
      validateChannelName name ;;
      let newChannel := Channel.with_name channel name in
      channels_set id newChannel ;;
      ret newChannel
  end.

Definition getAllChannels (this : Channels) : list Channel.t :=
  JsMap.values (channels this).

Definition deleteChannel (id : number) : Method unit :=
  fun this =>
    (Return tt, mkChannels (JsMap.delete id (channels this)) (nextChannelId this)).

(** [new Channels()] *)
Definition new_Channels : Channels := mkChannels JsMap.empty 1.

(** The registry once the module has loaded:
    [channels.create({ name: 'general' }); channels.create({ name: 'random' })]. *)
Definition channels_at_start : Channels :=
  snd (create (lit "random") (snd (create (lit "general") new_Channels))).

(** ** The HTTP routes of [src/index.ts] *)

(** The message of an [HttpError]: [e.message] of a caught [Error], or the
    literal ['Channel not found']. *)
Inductive HttpMessage : Type :=
  | MessageOf (e : Error)
  | ChannelNotFound.

(** [ctx.throw(status, message)] *)
Record HttpError : Type := mkHttpError {
  status : Z;
  message : HttpMessage
}.

(** What a route assigns to [ctx.body]. *)
Inductive Body : Type :=
  | ChannelBody (channel : Channel.t)
  | ChannelListBody (all : list Channel.t)
  | EmptyBody.

Definition Route : Type := Channels -> Completion HttpError Body * Channels.

(** The response: Koa answers 200 once a body is assigned; the error
    middleware answers [err.status || 500] with the error as the body. *)
Inductive ResponseBody : Type :=
  | Ok (body : Body)
  | Failed (message : HttpMessage).

Record Response : Type := mkResponse {
  response_status : Z;
  response_body : ResponseBody
}.

Definition respond (outcome : Completion HttpError Body) : Response :=
  match outcome with
  | Return body => mkResponse 200 (Ok body)
  | Throw err =>
      mkResponse (if status err =? 0 then 500 else status err) (Failed (message err))
  end.

(** [ctx.request.body.name], of type [unknown]: [None] is [undefined]. *)
Definition unknown : Type := option json.

Definition assertChannelName (name : unknown) : Completion Error jsstring :=
  match name with
  | None => Throw NameParameterMissing
  | Some (JString s) => Return s
  | Some _ => Throw NameParameterNotString
  end.

(** The message relay: what a handler sends, in order. *)
Definition Client : Type := nat.

Inductive Sent : Type :=
  | SendTo (client : Client) (frame : jsstring).

Definition receiver (s : Sent) : Client :=
  match s with SendTo client _ => client end.

Definition frame_of (s : Sent) : jsstring :=
  match s with SendTo _ frame => frame end.

(** [typeof v] *)
Inductive TypeTag : Type :=
  | TUndefined | TObject | TBoolean | TNumber | TString.

Definition typeof (v : unknown) : TypeTag :=
  match v with
  | None => TUndefined
  | Some JNull => TObject
  | Some (JBool _) => TBoolean
  | Some (JNumber _) => TNumber
  | Some (JString _) => TString
  | Some (JArray _) => TObject
  | Some (JObject _) => TObject
  end.

Definition TypeTag_eqb (a b : TypeTag) : bool :=
  match a, b with
  | TUndefined, TUndefined | TObject, TObject | TBoolean, TBoolean
  | TNumber, TNumber | TString, TString => true
  | _, _ => false
  end.

Definition is_null (v : json) : bool :=
  match v with JNull => true | _ => false end.

(** [v === s] for a string literal [s] *)
Definition strict_eq_string (v : unknown) (s : jsstring) : bool :=
  match v with
  | Some (JString s') => jsstring_eqb s' s
  | _ => false
  end.

Definition isNewMessage (value : json) : bool :=
  TypeTag_eqb (typeof (Some value)) TObject
  && negb (is_null value)
  && strict_eq_string (get_prop value (lit "type")) (lit "message")
  && TypeTag_eqb (typeof (get_prop value (lit "channelId"))) TNumber
  && TypeTag_eqb (typeof (get_prop value (lit "userName"))) TString
  && TypeTag_eqb (typeof (get_prop value (lit "text"))) TString.

(** The fields of a value narrowed to [NewMessage]. *)
Definition string_field (data : json) (key : jsstring) : jsstring :=
  match get_prop data key with
  | Some (JString s) => s
  | _ => []
  end.

Definition number_field (data : json) (key : jsstring) : number :=
  match get_prop data key with
  | Some (JNumber n) => n
  | _ => NaN
  end.

(** [{ type: 'error', message }] *)
Definition error_object (message : jsstring) : json :=
  JObject [(lit "type", JString (lit "error")); (lit "message", JString message)].

(** [channel.messages.push(message)] on the record bound to [id]. *)
Definition messages_push (id : number) (channel : Channel.t)
    (message : Message.t) (this : Channels) : Channels :=
  mkChannels (JsMap.set id (Channel.push channel message) (channels this))
    (nextChannelId this).

Section Server.
(** The built-ins the routes call: [Number(string)], [JSON.parse] (which
    returns the value or throws a [SyntaxError] with a message) and
    [JSON.stringify]. *)
Variable Number : jsstring -> number.
Variable JSON_parse : jsstring -> Completion jsstring json.
Variable JSON_stringify : json -> jsstring.

(** [route.post('/channels', ...)] *)
Definition post_channels (name : unknown) : Route :=
  fun this =>
    match assertChannelName name with
    | Throw e => (Throw (mkHttpError 400 (MessageOf e)), this)
    | Return name =>
        match create name this with
        | (Return channel, this') => (Return (ChannelBody channel), this')
        | (Throw e, this') => (Throw (mkHttpError 400 (MessageOf e)), this')
        end
    end.

(** [route.get('/channels', ...)] *)
Definition get_channels : Route :=
  fun this => (Return (ChannelListBody (getAllChannels this)), this).

(** [route.patch('/channels/:id', ...)] *)
Definition patch_channels (idString : jsstring) (newName : unknown) : Route :=
  fun this =>
    let id := Number idString in
    match getChannel id this with
    | None => (Throw (mkHttpError 404 ChannelNotFound), this)
    | Some _ =>
        match assertChannelName newName with
        | Throw e => (Throw (mkHttpError 400 (MessageOf e)), this)
        | Return newName =>
            match changeName id newName this with
            | (Return channel, this') => (Return (ChannelBody channel), this')
            | (Throw e, this') => (Throw (mkHttpError 400 (MessageOf e)), this')
            end
        end
    end.

(** [route.delete('/channels/:id', ...)] *)
Definition delete_channels (idString : jsstring) : Route :=
  fun this =>
    let id := Number idString in
    match getChannel id this with
    | None => (Throw (mkHttpError 404 ChannelNotFound), this)
    | Some _ =>
        let '(_, this') := deleteChannel id this in
        (Return EmptyBody, this')
    end.

(** [ctx.websocket.send(JSON.stringify({ type: 'error', message }))] *)
Definition send_error (websocket : Client) (message : jsstring) : list Sent :=
  [SendTo websocket (JSON_stringify (error_object message))].

(** [app.ws.server?.clients.forEach(client => client.send(JSON.stringify(data)))]:
    [server] is the WebSocket server's set of open connections, [None]
    before the server exists. *)
Definition broadcast (server : option (list Client)) (data : json) : list Sent :=
  match server with
  | None => []
  | Some clients => map (fun client => SendTo client (JSON_stringify data)) clients
  end.

(** [ctx.websocket.on('message', rawData => ...)] of [route.all('/messages')]:
    the frames sent and the registry afterwards. *)
Definition on_message (server : option (list Client)) (websocket : Client)
    (rawData : jsstring) (this : Channels) : list Sent * Channels :=
  match JSON_parse rawData with
  | Throw e_message => (send_error websocket e_message, this)
  | Return data =>
      if negb (isNewMessage data) then
        (send_error websocket (lit "Invalid message format"), this)
      else if Nat.ltb (List.length (string_field data (lit "userName"))) 1 then
        (send_error websocket
           (lit "Message userName must be longer than 0 character"), this)
      else if Nat.ltb (List.length (string_field data (lit "text"))) 1 then
        (send_error websocket
           (lit "Message text must be longer than 0 character"), this)
      else
        let channelId := number_field data (lit "channelId") in
        match getChannel channelId this with
        | None => (send_error websocket (lit "Channel not found"), this)
        | Some channel =>
            let message :=
              Message.mk (string_field data (lit "userName"))
                (string_field data (lit "text")) in
            (broadcast server data, messages_push channelId channel message this)
        end
  end.
End Server.

(** ** The minimal variant: the registry in two module-level variables

    [let nextChannelId = 1] and [const channels = new Map()], kept here in the
    same record; its routes check only that a name is a non-empty string. *)
Module Minimal.
Definition issueNextChannelId (state : Channels) : number * Channels :=
  (Int (nextChannelId state),
   mkChannels (channels state) (js_succ (nextChannelId state))).

Definition assertChannelName (name : unknown) : Completion Error jsstring :=
  match name with
  | None => Throw NameParameterMissing
  | Some (JString s) =>
      if Nat.eqb (List.length s) 0 then Throw NameNotEntered else Return s
  | Some _ => Throw NameParameterNotString
  end.

(** The module's top level: [general] and [random] take the ids 1 and 2. *)
Definition state_at_start : Channels :=
  let '(id1, s1) := issueNextChannelId (mkChannels JsMap.empty 1) in
  let general := Channel.mk id1 (lit "general") [] in
  let '(id2, s2) := issueNextChannelId s1 in
  let random := Channel.mk id2 (lit "random") [] in
  mkChannels
    (JsMap.set (Channel.id random) random
       (JsMap.set (Channel.id general) general (channels s2)))
    (nextChannelId s2).

Section Routes.
Variable Number : jsstring -> number.

(** [route.post('/channels', ...)] *)
Definition post_channels (name : unknown) : Route :=
  fun state =>
    match assertChannelName name with
    | Throw e => (Throw (mkHttpError 400 (MessageOf e)), state)
    | Return name =>
        let '(id, state1) := issueNextChannelId state in
        let channel := Channel.mk id name [] in
        (Return (ChannelBody channel),
         mkChannels (JsMap.set (Channel.id channel) channel (channels state1))
           (nextChannelId state1))
    end.

(** [route.patch('/channels/:id', ...)] *)
Definition patch_channels (id : jsstring) (newName : unknown) : Route :=
  fun state =>
    match JsMap.get (Number id) (channels state) with
    | None => (Throw (mkHttpError 404 ChannelNotFound), state)
    | Some channel =>
        match assertChannelName newName with
        | Throw e => (Throw (mkHttpError 400 (MessageOf e)), state)
        | Return newName =>
            (Return EmptyBody,
             mkChannels
               (JsMap.set (Channel.id channel)
                  (Channel.with_name channel newName) (channels state))
               (nextChannelId state))
        end
    end.

(** [route.delete('/channels/:id', ...)] *)
Definition delete_channels (id : jsstring) : Route :=
  fun state =>
    match JsMap.get (Number id) (channels state) with
    | None => (Throw (mkHttpError 404 ChannelNotFound), state)
    | Some _ =>
        (Return EmptyBody,
         mkChannels (JsMap.delete (Number id) (channels state))
           (nextChannelId state))
    end.
End Routes.
End Minimal.

(** ** What the claims speak of *)

(** The characters of the class [[A-Za-z0-9_-]]. *)
Definition name_alphabet : jsstring :=
  lit "ABCDEFGHIJKLMNOPQRSTUVWXYZabcdefghijklmnopqrstuvwxyz0123456789_-".

(** A string of length 1 to 15 over that class. *)
Definition valid_name (name : jsstring) : Prop :=
  (1 <= List.length name <= 15)%nat
  /\ Forall (fun u => In u name_alphabet) name.

(** [name] differs from the name of every live channel. *)
Definition unused_name (name : jsstring) (this : Channels) : Prop :=
  forall channel, In channel (getAllChannels this) -> Channel.name channel <> name.

(** [name] is the name of some live channel. *)
Definition used_name (name : jsstring) (this : Channels) : Prop :=
  exists channel, In channel (getAllChannels this) /\ Channel.name channel = name.

(** *** Runs of the registry

    What can happen to the registry after [new Channels()]: a [create], a
    [changeName], a [deleteChannel], or the push of an accepted message. A run
    keeps the ids its successful [create]s returned, in order. *)
Inductive Op : Type :=
  | OpCreate (name : jsstring)
  | OpChangeName (id : number) (name : jsstring)
  | OpDelete (id : number)
  | OpPush (id : number) (message : Message.t).

Definition step (op : Op) (this : Channels) : list number * Channels :=
  match op with
  | OpCreate name =>
      match create name this with
      | (Return channel, this') => ([Channel.id channel], this')
      | (Throw _, this') => ([], this')
      end
  | OpChangeName id name => ([], snd (changeName id name this))
  | OpDelete id => ([], snd (deleteChannel id this))
  | OpPush id message =>
      match getChannel id this with
      | Some channel => ([], messages_push id channel message this)
      | None => ([], this)
      end
  end.

Fixpoint run (ops : list Op) (this : Channels) : list number * Channels :=
  match ops with
  | [] => ([], this)
  | op :: rest =>
      let '(ids, this1) := step op this in
      let '(ids', this2) := run rest this1 in
      (ids ++ ids', this2)
  end.

(** A process lifetime: the module creates [general] and [random], then
    serves requests. *)
Definition lifetime (ops : list Op) : list number * Channels :=
  run (OpCreate (lit "general") :: OpCreate (lit "random") :: ops) new_Channels.

Definition reachable (this : Channels) : Prop :=
  exists ops, snd (lifetime ops) = this.

(** [a < b] on numbers that hold integers. *)
Definition number_lt (a b : number) : Prop :=
  match a, b with
  | Int x, Int y => x < y
  | _, _ => False
  end.

(** The checks of [validateChannelName] that look at the name alone. *)
Definition passes_name_checks (name : jsstring) : bool :=
  negb (Nat.eqb (List.length name) 0)
  && negb (Nat.ltb 15 (List.length name))
  && name_regex_test name.

(** What every run keeps true of the registry. *)
Record registry_ok (this : Channels) : Prop := mk_registry_ok {
  counter_range : 1 <= nextChannelId this <= two53;
  keys_issued :
    forall k channel, In (k, channel) (channels this) ->
      exists z, k = Int z /\ Channel.id channel = Int z /\ 1 <= z
                /\ (z < nextChannelId this \/ nextChannelId this = two53);
  names_checked :
    forall channel, In channel (getAllChannels this) ->
      passes_name_checks (Channel.name channel) = true;
  names_distinct : NoDup (map Channel.name (getAllChannels this))
}.

(** [n] rounds of creating a channel [dev] and deleting it again, from the
    start of the process: round [k] gets the id [3 + k]. *)
Definition churn_round (k : N) : list Op :=
  [OpCreate (lit "dev"); OpDelete (Int (3 + Z.of_N k))].

Definition churn (n : N) : list Op :=
  N.peano_rect (fun _ => list Op) [] (fun k ops => ops ++ churn_round k) n.

(** [2^53 - 3] such rounds bring the counter to [2^53]; then [dev] is created,
    deleted and created again. *)
Definition saturating_ops : list Op :=
  churn (2 ^ 53 - 3)
  ++ [OpCreate (lit "dev"); OpDelete (Int two53); OpCreate (lit "dev")].

(** *** Messages *)

(** [data] has the shape [{type: "message", channelId, userName, text}]. *)
Definition message_shape (data : json) (channelId : number)
    (userName text : jsstring) : Prop :=
  get_prop data (lit "type") = Some (JString (lit "message"))
  /\ get_prop data (lit "channelId") = Some (JNumber channelId)
  /\ get_prop data (lit "userName") = Some (JString userName)
  /\ get_prop data (lit "text") = Some (JString text).

(** The payload parses, has the shape with a non-empty [userName] and
    [text], and its [channelId] is bound to [channel]. *)
Definition well_formed (JSON_parse : jsstring -> Completion jsstring json)
    (rawData : jsstring) (this : Channels)
    (data : json) (channelId : number) (userName text : jsstring)
    (channel : Channel.t) : Prop :=
  JSON_parse rawData = Return data
  /\ message_shape data channelId userName text
  /\ userName <> [] /\ text <> []
  /\ getChannel channelId this = Some channel.

(** The payload is rejected: it does not parse, or misses the shape, or has
    an empty [userName] or [text], or names no channel. *)
Definition rejected (JSON_parse : jsstring -> Completion jsstring json)
    (rawData : jsstring) (this : Channels) : Prop :=
  (exists e_message, JSON_parse rawData = Throw e_message)
  \/ exists data, JSON_parse rawData = Return data /\
       ((forall channelId userName text,
            ~ message_shape data channelId userName text)
        \/ exists channelId userName text,
             message_shape data channelId userName text
             /\ (userName = [] \/ text = [] \/ getChannel channelId this = None)).

(** The frames of [sent] addressed to [client]. *)
Definition frames_to (client : Client) (sent : list Sent) : list jsstring :=
  map frame_of (filter (fun s => Nat.eqb (receiver s) client) sent).

(** *** A registry to try things on

    The registry at the start of the process after the message
    [{userName: "al", text: "hi"}] was accepted for channel 1. *)
Definition example_message : Message.t := Message.mk (lit "al") (lit "hi").

Definition example_registry : Channels :=
  messages_push (Int 1) (Channel.mk (Int 1) (lit "general") []) example_message
    channels_at_start.

(** A payload with a property beyond the four of the shape, its text, and
    stand-ins for [JSON.parse] and [JSON.stringify] that know this one text. In
    [dq] an apostrophe stands for a double quote. *)
Definition dq (s : string) : jsstring :=
  map (fun u => if N.eqb u 39 then 34%N else u) (lit s).

Definition example_payload : json :=
  JObject
    [(lit "type", JString (lit "message"));
     (lit "channelId", JNumber (Int 1));
     (lit "userName", JString (lit "al"));
     (lit "text", JString (lit "hi"));
     (lit "color", JString (lit "red"))].

Definition example_raw : jsstring :=
  dq "{'type':'message','channelId':1,'userName':'al','text':'hi','color':'red'}".

Definition example_parse (raw : jsstring) : Completion jsstring json :=
  if jsstring_eqb raw example_raw then Return example_payload
  else Throw (lit "Unexpected token").

Definition example_stringify (_ : json) : jsstring := example_raw.

(** *** Runs of the minimal variant

    Its requests: POST, PATCH and DELETE on the channels, and the push of an
    accepted message. *)
Inductive MinimalOp : Type :=
  | MPost (name : unknown)
  | MPatch (id : jsstring) (newName : unknown)
  | MDelete (id : jsstring)
  | MPush (id : number) (message : Message.t).

Definition minimal_step (Number : jsstring -> number) (op : MinimalOp)
    (state : Channels) : Channels :=
  match op with
  | MPost name => snd (Minimal.post_channels name state)
  | MPatch id newName => snd (Minimal.patch_channels Number id newName state)
  | MDelete id => snd (Minimal.delete_channels Number id state)
  | MPush id message =>
      match JsMap.get id (channels state) with
      | Some channel => messages_push id channel message state
      | None => state
      end
  end.

Definition minimal_run (Number : jsstring -> number) (ops : list MinimalOp)
    (state : Channels) : Channels :=
  fold_left (fun state op => minimal_step Number op state) ops state.

Definition minimal_reachable (Number : jsstring -> number) (state : Channels) : Prop :=
  exists ops, minimal_run Number ops Minimal.state_at_start = state.

(** What every run of the minimal variant keeps true. *)
Record minimal_ok (state : Channels) : Prop := mk_minimal_ok {
  minimal_counter_range : 1 <= nextChannelId state <= two53;
  minimal_keys_issued :
    forall k channel, In (k, channel) (channels state) ->
      exists z, k = Int z /\ Channel.id channel = Int z /\ 1 <= z
                /\ (z < nextChannelId state \/ nextChannelId state = two53);
  minimal_keys_distinct : NoDup (JsMap.keys (channels state))
}.

(** * Properties *)

(** ** Strings, numbers and maps *)

Lemma jsstring_eqb_eq (a b : jsstring) : jsstring_eqb a b = true <-> a = b.
Proof.
  revert b; induction a as [|x a IH]; intros [|y b]; simpl; split;
    try congruence; try reflexivity.
  - intros H. apply andb_true_iff in H as [Hx Hab].
    apply N.eqb_eq in Hx. apply IH in Hab. congruence.
  - intros H. injection H as -> ->. apply andb_true_iff. split.
    + apply N.eqb_refl.
    + now apply IH.
Qed.

Lemma jsstring_eqb_refl (a : jsstring) : jsstring_eqb a a = true.
Proof. now apply jsstring_eqb_eq. Qed.

Lemma jsstring_eqb_neq (a b : jsstring) : jsstring_eqb a b = false <-> a <> b.
Proof.
  split.
  - intros H E. apply jsstring_eqb_eq in E. congruence.
  - intros H. destruct (jsstring_eqb a b) eqn:E; [|reflexivity].
    apply jsstring_eqb_eq in E. contradiction.
Qed.

Lemma SameValueZero_eq (a b : number) : SameValueZero a b = true <-> a = b.
Proof.
  destruct a as [x|m e| |s], b as [y|m' e'| |s']; simpl; split;
    try congruence; try reflexivity.
  - intros H. apply Z.eqb_eq in H. congruence.
  - intros H. injection H as ->. apply Z.eqb_refl.
  - intros H. apply andb_true_iff in H as [Hm He].
    apply Z.eqb_eq in Hm. apply Pos.eqb_eq in He. congruence.
  - intros H. injection H as -> ->. apply andb_true_iff. split.
    + apply Z.eqb_refl.
    + apply Pos.eqb_refl.
  - intros H. apply Bool.eqb_prop in H. congruence.
  - intros H. injection H as ->. apply Bool.eqb_reflx.
Qed.

Lemma SameValueZero_refl (a : number) : SameValueZero a a = true.
Proof. now apply SameValueZero_eq. Qed.

Lemma SameValueZero_neq (a b : number) : SameValueZero a b = false <-> a <> b.
Proof.
  split.
  - intros H E. apply SameValueZero_eq in E. congruence.
  - intros H. destruct (SameValueZero a b) eqn:E; [|reflexivity].
    apply SameValueZero_eq in E. contradiction.
Qed.

Section MapFacts.
Context {V : Type}.
Implicit Types (m : JsMap.t V) (k : number) (v : V).

Lemma get_set_same k v m : JsMap.get k (JsMap.set k v m) = Some v.
Proof.
  induction m as [|[k' v'] m IH]; simpl.
  - now rewrite SameValueZero_refl.
  - destruct (SameValueZero k' k) eqn:E; simpl; rewrite E; auto.
Qed.

Lemma get_set_other k k' v m :
  k <> k' -> JsMap.get k' (JsMap.set k v m) = JsMap.get k' m.
Proof.
  intros Hne. induction m as [|[k0 v0] m IH]; simpl.
  - apply SameValueZero_neq in Hne. now rewrite Hne.
  - destruct (SameValueZero k0 k) eqn:E; simpl.
    + apply SameValueZero_eq in E. subst k0.
      apply SameValueZero_neq in Hne. now rewrite Hne.
    + now rewrite IH.
Qed.

Lemma get_delete_same k m : JsMap.get k (JsMap.delete k m) = None.
Proof.
  induction m as [|[k' v'] m IH]; simpl; [reflexivity|].
  destruct (SameValueZero k' k) eqn:E; simpl; [assumption|].
  now rewrite E.
Qed.

Lemma get_delete_other k k' m :
  k <> k' -> JsMap.get k' (JsMap.delete k m) = JsMap.get k' m.
Proof.
  intros Hne. induction m as [|[k0 v0] m IH]; simpl; [reflexivity|].
  destruct (SameValueZero k0 k) eqn:E; simpl.
  - apply SameValueZero_eq in E. subst k0.
    apply SameValueZero_neq in Hne. now rewrite Hne.
  - now rewrite IH.
Qed.

Lemma delete_delete k m :
  JsMap.delete k (JsMap.delete k m) = JsMap.delete k m.
Proof.
  unfold JsMap.delete. induction m as [|[k' v'] m IH]; simpl; [reflexivity|].
  destruct (SameValueZero k' k) eqn:E; simpl; [assumption|].
  rewrite E. simpl. now rewrite IH.
Qed.

Lemma delete_absent k m : JsMap.get k m = None -> JsMap.delete k m = m.
Proof.
  unfold JsMap.delete. induction m as [|[k' v'] m IH]; simpl; [reflexivity|].
  destruct (SameValueZero k' k) eqn:E; simpl; [discriminate|].
  intros H. now rewrite IH.
Qed.

Lemma get_In_values k v m : JsMap.get k m = Some v -> In v (JsMap.values m).
Proof.
  induction m as [|[k' v'] m IH]; simpl; [discriminate|].
  destruct (SameValueZero k' k); intros H.
  - left. congruence.
  - right. auto.
Qed.

Lemma get_In_entry k v m : JsMap.get k m = Some v -> In (k, v) m.
Proof.
  induction m as [|[k' v'] m IH]; simpl; [discriminate|].
  destruct (SameValueZero k' k) eqn:E; intros H.
  - left. apply SameValueZero_eq in E. congruence.
  - right. auto.
Qed.

Lemma get_None_keys k m : JsMap.get k m = None <-> ~ In k (JsMap.keys m).
Proof.
  induction m as [|[k' v'] m IH]; simpl; [tauto|].
  destruct (SameValueZero k' k) eqn:E.
  - apply SameValueZero_eq in E. split; [discriminate|tauto].
  - apply SameValueZero_neq in E. tauto.
Qed.

(** [set] on a new key appends; on a bound key it replaces in place. *)
Lemma set_absent k v m : JsMap.get k m = None -> JsMap.set k v m = m ++ [(k, v)].
Proof.
  induction m as [|[k' v'] m IH]; simpl; [reflexivity|].
  destruct (SameValueZero k' k); [discriminate|].
  intros H. now rewrite IH.
Qed.

Lemma keys_set_present k v v0 m :
  JsMap.get k m = Some v0 -> JsMap.keys (JsMap.set k v m) = JsMap.keys m.
Proof.
  induction m as [|[k' v'] m IH]; simpl; [discriminate|].
  destruct (SameValueZero k' k); simpl; [reflexivity|].
  intros H. now rewrite IH.
Qed.

Lemma size_set_present k v v0 m :
  JsMap.get k m = Some v0 -> JsMap.size (JsMap.set k v m) = JsMap.size m.
Proof.
  intros H. apply keys_set_present with (v := v) in H.
  unfold JsMap.size, JsMap.keys in *.
  rewrite <- (length_map fst), H. apply length_map.
Qed.
End MapFacts.

(** ** Name validation *)

(** [validateChannelName] never writes, and runs its four checks in order. *)
Lemma validateChannelName_unfold (name : jsstring) (this : Channels) :
  validateChannelName name this =
  (if Nat.eqb (List.length name) 0 then Throw NameEmpty
   else if Nat.ltb 15 (List.length name) then Throw NameTooLong
   else if negb (name_regex_test name) then Throw NameNotAlphanumeric
   else if existsb (fun channel => jsstring_eqb (Channel.name channel) name)
             (getAllChannels this)
        then Throw NameAlreadyUsed
   else Return tt,
   this).
Proof.
  unfold validateChannelName, bind, throw_if, throw, ret, read, getAllChannels.
  destruct (Nat.eqb (List.length name) 0); [reflexivity|].
  destruct (Nat.ltb 15 (List.length name)); [reflexivity|].
  destruct (negb (name_regex_test name)); [reflexivity|].
  destruct (existsb _ _); reflexivity.
Qed.

Lemma in_name_class_alphabet (u : code_unit) :
  In u name_alphabet -> in_name_class u = true.
Proof.
  unfold name_alphabet. simpl.
  intros H. repeat (destruct H as [<-|H]; [reflexivity|]). destruct H.
Qed.

Lemma valid_name_regex (name : jsstring) :
  valid_name name -> name_regex_test name = true.
Proof.
  intros [_ H]. unfold name_regex_test. apply forallb_forall.
  intros u Hu. apply in_name_class_alphabet.
  rewrite Forall_forall in H. auto.
Qed.

Lemma unused_name_existsb (name : jsstring) (this : Channels) :
  unused_name name this ->
  existsb (fun channel => jsstring_eqb (Channel.name channel) name)
    (getAllChannels this) = false.
Proof.
  intros H. destruct (existsb _ _) eqn:E; [|reflexivity].
  apply existsb_exists in E as (channel & Hin & Heq).
  apply jsstring_eqb_eq in Heq. now apply H in Hin.
Qed.

Lemma used_name_existsb (name : jsstring) (this : Channels) :
  used_name name this ->
  existsb (fun channel => jsstring_eqb (Channel.name channel) name)
    (getAllChannels this) = true.
Proof.
  intros (channel & Hin & Heq). apply existsb_exists.
  exists channel. split; [assumption|]. now apply jsstring_eqb_eq.
Qed.

Lemma validateChannelName_accepts (name : jsstring) (this : Channels) :
  valid_name name -> unused_name name this ->
  validateChannelName name this = (Return tt, this).
Proof.
  intros Hv Hu. rewrite validateChannelName_unfold.
  rewrite (valid_name_regex _ Hv), (unused_name_existsb _ _ Hu).
  destruct Hv as [[Hlo Hhi] _].
  destruct (Nat.eqb_spec (List.length name) 0) as [E|_]; [lia|].
  destruct (Nat.ltb_spec 15 (List.length name)) as [E|_]; [lia|].
  reflexivity.
Qed.

(** A name in use is rejected whatever else is wrong with it, and nothing is
    written. *)
Lemma validateChannelName_rejects_used (name : jsstring) (this : Channels) :
  used_name name this ->
  exists e, validateChannelName name this = (Throw e, this)
            /\ kind_of e = ValidationError
            /\ (passes_name_checks name = true -> e = NameAlreadyUsed).
Proof.
  intros Hu. rewrite validateChannelName_unfold.
  rewrite (used_name_existsb _ _ Hu). unfold passes_name_checks.
  destruct (Nat.eqb (List.length name) 0).
  { exists NameEmpty. repeat split. discriminate. }
  destruct (Nat.ltb 15 (List.length name)).
  { exists NameTooLong. repeat split. discriminate. }
  destruct (name_regex_test name); simpl.
  - exists NameAlreadyUsed. repeat split.
  - exists NameNotAlphanumeric. repeat split. discriminate.
Qed.

(** In a reachable registry every name in use has passed the checks. *)
Lemma used_name_checked (name : jsstring) (this : Channels) :
  registry_ok this -> used_name name this -> passes_name_checks name = true.
Proof.
  intros Hok (channel & Hin & <-). now apply (names_checked _ Hok).
Qed.

(** ** What every run keeps true *)

Section MapInvariants.
Context {V B : Type}.
Implicit Types (m : JsMap.t V) (k : number) (v : V) (f : V -> B).

Lemma In_set k v m k' v' :
  In (k', v') (JsMap.set k v m) -> (k' = k /\ v' = v) \/ In (k', v') m.
Proof.
  induction m as [|[k0 v0] m IH]; simpl.
  - intros [H|[]]. left. split; congruence.
  - destruct (SameValueZero k0 k) eqn:E; simpl.
    + apply SameValueZero_eq in E. subst k0.
      intros [H|H]; [left; split; congruence | right; now right].
    + intros [H|H]; [right; now left|].
      destruct (IH H) as [?|?]; [now left | right; now right].
Qed.

Lemma In_values_set k v m x :
  In x (JsMap.values (JsMap.set k v m)) -> x = v \/ In x (JsMap.values m).
Proof.
  unfold JsMap.values. intros H. apply in_map_iff in H as ([k' v'] & <- & Hin).
  apply In_set in Hin as [[_ ->]|Hin]; [now left|].
  right. apply in_map_iff. now exists (k', v').
Qed.

Lemma In_delete k m k' v' :
  In (k', v') (JsMap.delete k m) -> In (k', v') m.
Proof. unfold JsMap.delete. intros H. now apply filter_In in H. Qed.

Lemma In_values_delete k m x :
  In x (JsMap.values (JsMap.delete k m)) -> In x (JsMap.values m).
Proof.
  unfold JsMap.values. intros H. apply in_map_iff in H as ([k' v'] & <- & Hin).
  apply In_delete in Hin. apply in_map_iff. now exists (k', v').
Qed.

(** Storing a value whose [f]-image no stored value has keeps the images
    distinct. *)
Lemma NoDup_set_fresh f k v m :
  NoDup (map f (JsMap.values m)) ->
  (forall x, In x (JsMap.values m) -> f x <> f v) ->
  NoDup (map f (JsMap.values (JsMap.set k v m))).
Proof.
  induction m as [|[k0 v0] m IH]; simpl; intros Hnd Hfresh.
  - constructor; [intros []|constructor].
  - inversion Hnd as [|? ? Hnotin Hnd']; subst.
    destruct (SameValueZero k0 k); simpl.
    + constructor; [|assumption].
      intros Hin. apply in_map_iff in Hin as (x & Hfx & Hx).
      apply (Hfresh x); [now right | assumption].
    + constructor.
      * intros Hin. apply in_map_iff in Hin as (x & Hfx & Hx).
        apply In_values_set in Hx as [->|Hx].
        -- apply (Hfresh v0); [now left | congruence].
        -- apply Hnotin. apply in_map_iff. now exists x.
      * apply IH; [assumption|]. intros x Hx. apply Hfresh. now right.
Qed.

(** Replacing a value by one with the same [f]-image keeps the images. *)
Lemma map_values_set_same f k v v0 m :
  JsMap.get k m = Some v0 -> f v = f v0 ->
  map f (JsMap.values (JsMap.set k v m)) = map f (JsMap.values m).
Proof.
  intros Hget Hf. induction m as [|[k' v'] m IH]; simpl in *; [discriminate|].
  destruct (SameValueZero k' k); simpl.
  - congruence.
  - now rewrite IH.
Qed.

Lemma NoDup_delete f k m :
  NoDup (map f (JsMap.values m)) ->
  NoDup (map f (JsMap.values (JsMap.delete k m))).
Proof.
  induction m as [|[k0 v0] m IH]; simpl; intros Hnd; [assumption|].
  inversion Hnd as [|? ? Hnotin Hnd']; subst.
  destruct (SameValueZero k0 k); simpl; [now apply IH|].
  constructor; [|now apply IH].
  intros Hin. apply Hnotin. apply in_map_iff in Hin as (x & Hfx & Hx).
  apply In_values_delete in Hx. apply in_map_iff. now exists x.
Qed.

(** Once a key is deleted, no stored value has the image of the value it
    was bound to. *)
Lemma delete_releases f k v m :
  NoDup (map f (JsMap.values m)) ->
  JsMap.get k m = Some v ->
  forall x, In x (JsMap.values (JsMap.delete k m)) -> f x <> f v.
Proof.
  induction m as [|[k0 v0] m IH]; simpl; intros Hnd Hget x Hx; [discriminate|].
  inversion Hnd as [|? ? Hnotin Hnd']; subst.
  destruct (SameValueZero k0 k) eqn:E; simpl in Hx.
  - injection Hget as <-. apply In_values_delete in Hx.
    intros Hf. apply Hnotin. apply in_map_iff. now exists x.
  - destruct Hx as [<-|Hx].
    + intros Hf. apply Hnotin. apply in_map_iff. exists v. split; [congruence|].
      eapply get_In_values. exact Hget.
    + now apply IH.
Qed.
End MapInvariants.

Lemma js_succ_ge (n : Z) : n <= js_succ n.
Proof. unfold js_succ. destruct (n <? two53); lia. Qed.

Lemma js_succ_exact (n : Z) : n < two53 -> js_succ n = n + 1.
Proof. unfold js_succ. intros H. destruct (Z.ltb_spec n two53); lia. Qed.

Lemma js_succ_saturates : js_succ two53 = two53.
Proof. reflexivity. Qed.

Lemma registry_ok_new : registry_ok new_Channels.
Proof.
  constructor; simpl.
  - unfold two53. lia.
  - intros k channel [].
  - intros channel [].
  - constructor.
Qed.

(** What [create] does, by cases on the four checks. *)
Lemma create_cases (name : jsstring) (this : Channels) :
  (exists e, create name this = (Throw e, this))
  \/ (passes_name_checks name = true
      /\ unused_name name this
      /\ create name this =
         (Return (Channel.mk (Int (nextChannelId this)) name []),
          mkChannels
            (JsMap.set (Int (nextChannelId this))
               (Channel.mk (Int (nextChannelId this)) name []) (channels this))
            (js_succ (nextChannelId this)))).
Proof.
  unfold create, bind, passes_name_checks. rewrite validateChannelName_unfold.
  destruct (Nat.eqb (List.length name) 0); [left; eauto|].
  destruct (Nat.ltb 15 (List.length name)); [left; eauto|].
  destruct (name_regex_test name); simpl; [|left; eauto].
  destruct (existsb _ _) eqn:E; [left; eauto|].
  right. split; [reflexivity|]. split; [|reflexivity].
  intros channel Hin Heq. apply jsstring_eqb_eq in Heq.
  assert (existsb (fun channel => jsstring_eqb (Channel.name channel) name)
            (getAllChannels this) = true); [|congruence].
  apply existsb_exists. eauto.
Qed.

Lemma create_ok (name : jsstring) (this : Channels) :
  registry_ok this -> registry_ok (snd (create name this)).
Proof.
  intros [Hc Hk Hn Hd].
  destruct (create_cases name this) as [[e ->]|(Hchk & Hu & ->)]; simpl.
  { now constructor. }
  constructor; simpl.
  - pose proof (js_succ_ge (nextChannelId this)).
    unfold js_succ in *. destruct (nextChannelId this <? two53) eqn:E; [|lia].
    apply Z.ltb_lt in E. lia.
  - intros k channel Hin. apply In_set in Hin as [[-> ->]|Hin].
    + exists (nextChannelId this). repeat split; [lia|].
      unfold js_succ. destruct (Z.ltb_spec (nextChannelId this) two53); lia.
    + destruct (Hk _ _ Hin) as (z & -> & Hid & Hz & Hlt).
      exists z. repeat split; try assumption.
      unfold js_succ. destruct (Z.ltb_spec (nextChannelId this) two53); lia.
  - intros channel Hin. apply In_values_set in Hin as [->|Hin]; auto.
  - apply NoDup_set_fresh; [assumption|]. intros x Hx. now apply Hu.
Qed.

Lemma changeName_cases (id : number) (name : jsstring) (this : Channels) :
  (exists e, changeName id name this = (Throw e, this))
  \/ (exists channel,
        getChannel id this = Some channel
        /\ passes_name_checks name = true
        /\ unused_name name this
        /\ changeName id name this =
           (Return (Channel.with_name channel name),
            mkChannels
              (JsMap.set id (Channel.with_name channel name) (channels this))
              (nextChannelId this))).
Proof.
  unfold changeName, bind, read, getChannel, passes_name_checks.
  destruct (JsMap.get id (channels this)) as [channel|];
    [|left; exists ChannelDoesNotExist; reflexivity].
  unfold bind. rewrite validateChannelName_unfold.
  destruct (Nat.eqb (List.length name) 0); [left; eauto|].
  destruct (Nat.ltb 15 (List.length name)); [left; eauto|].
  destruct (name_regex_test name); simpl; [|left; eauto].
  destruct (existsb _ _) eqn:E; [left; eauto|].
  right. exists channel. split; [reflexivity|]. split; [reflexivity|].
  split; [|reflexivity].
  intros c Hin Heq. apply jsstring_eqb_eq in Heq.
  assert (existsb (fun channel => jsstring_eqb (Channel.name channel) name)
            (getAllChannels this) = true); [|congruence].
  apply existsb_exists. eauto.
Qed.

Lemma changeName_ok (id : number) (name : jsstring) (this : Channels) :
  registry_ok this -> registry_ok (snd (changeName id name this)).
Proof.
  intros [Hc Hk Hn Hd].
  destruct (changeName_cases id name this)
    as [[e ->]|(channel & Hget & Hchk & Hu & ->)]; simpl.
  { now constructor. }
  constructor; simpl.
  - assumption.
  - intros k c Hin. apply In_set in Hin as [[-> ->]|Hin]; [|eauto].
    apply get_In_entry in Hget. destruct (Hk _ _ Hget) as (z & -> & Hid & Hz).
    exists z. repeat split; try tauto.
  - intros c Hin. apply In_values_set in Hin as [->|Hin]; auto.
  - apply NoDup_set_fresh; [assumption|]. intros x Hx. now apply Hu.
Qed.

Lemma deleteChannel_ok (id : number) (this : Channels) :
  registry_ok this -> registry_ok (snd (deleteChannel id this)).
Proof.
  intros [Hc Hk Hn Hd]. constructor; simpl.
  - assumption.
  - intros k c Hin. apply In_delete in Hin. eauto.
  - intros c Hin. apply In_values_delete in Hin. auto.
  - now apply NoDup_delete.
Qed.

Lemma messages_push_ok (id : number) (channel : Channel.t)
    (message : Message.t) (this : Channels) :
  getChannel id this = Some channel ->
  registry_ok this -> registry_ok (messages_push id channel message this).
Proof.
  intros Hget [Hc Hk Hn Hd]. constructor; simpl.
  - assumption.
  - intros k c Hin. apply In_set in Hin as [[-> ->]|Hin]; [|eauto].
    apply get_In_entry in Hget. destruct (Hk _ _ Hget) as (z & -> & Hid & Hz).
    exists z. repeat split; try tauto.
  - intros c Hin. apply In_values_set in Hin as [->|Hin]; [|auto].
    simpl. apply Hn. eapply get_In_values. exact Hget.
  - unfold getAllChannels. simpl.
    rewrite (map_values_set_same Channel.name id _ channel); auto.
Qed.

Lemma step_ok (op : Op) (this : Channels) :
  registry_ok this -> registry_ok (snd (step op this)).
Proof.
  intros Hok. destruct op as [name|id name|id|id message]; simpl.
  - pose proof (create_ok name this Hok) as H.
    destruct (create name this) as [[channel|e] this']; exact H.
  - now apply changeName_ok.
  - now apply deleteChannel_ok.
  - destruct (getChannel id this) as [channel|] eqn:E; simpl; [|assumption].
    now apply messages_push_ok.
Qed.

Lemma run_ok (ops : list Op) (this : Channels) :
  registry_ok this -> registry_ok (snd (run ops this)).
Proof.
  revert this. induction ops as [|op ops IH]; intros this Hok; simpl; [assumption|].
  pose proof (step_ok op this Hok) as H1.
  destruct (step op this) as [ids this1]. simpl in H1.
  pose proof (IH this1 H1) as H2.
  destruct (run ops this1) as [ids' this2]. exact H2.
Qed.

Lemma reachable_ok (this : Channels) : reachable this -> registry_ok this.
Proof.
  intros [ops <-]. unfold lifetime. apply run_ok. apply registry_ok_new.
Qed.

(** ** The registry *)

Ltac prove_valid_name :=
  split;
  [ simpl; lia
  | repeat (apply Forall_cons;
            [vm_compute; repeat (first [left; reflexivity | right])|]);
    apply Forall_nil ].

Ltac prove_unused_name :=
  let channel := fresh "channel" in
  let Hin := fresh "Hin" in
  intros channel Hin; simpl in Hin;
  repeat (destruct Hin as [<-|Hin]; [discriminate|]);
  destruct Hin.

(** C1. For every name of 1 to 15 characters over [[A-Za-z0-9_-]] that
    differs from the name of every live channel, [create] returns: it issues
    the next identifier (the counter's value, and the counter moves on),
    stores under it a channel with that name and no messages, and returns
    that channel; [getChannel] on the returned id then yields that channel. *)
Theorem create_valid_unused_name (name : jsstring) (this : Channels) :
  valid_name name ->
  unused_name name this ->
  let channel := Channel.mk (Int (nextChannelId this)) name [] in
  let this' :=
    mkChannels (JsMap.set (Int (nextChannelId this)) channel (channels this))
      (js_succ (nextChannelId this)) in
  create name this = (Return channel, this')
  /\ getChannel (Channel.id channel) this' = Some channel.
Proof.
  intros Hv Hu channel this'. unfold create, bind.
  rewrite (validateChannelName_accepts _ _ Hv Hu). simpl.
  split; [reflexivity|]. unfold getChannel. simpl. apply get_set_same.
Qed.

Lemma create_valid_unused_name_witness :
  create (lit "dev") channels_at_start =
  (Return (Channel.mk (Int 3) (lit "dev") []),
   mkChannels
     [(Int 1, Channel.mk (Int 1) (lit "general") []);
      (Int 2, Channel.mk (Int 2) (lit "random") []);
      (Int 3, Channel.mk (Int 3) (lit "dev") [])]
     4)
  /\ getChannel (Int 3)
       (mkChannels
          [(Int 1, Channel.mk (Int 1) (lit "general") []);
           (Int 2, Channel.mk (Int 2) (lit "random") []);
           (Int 3, Channel.mk (Int 3) (lit "dev") [])]
          4)
     = Some (Channel.mk (Int 3) (lit "dev") []).
Proof.
  apply (create_valid_unused_name (lit "dev") channels_at_start).
  - prove_valid_name.
  - prove_unused_name.
Defined.

(** C5, as amended. In [src/index.ts], for every registry and every name
    that some live channel bears, [create] throws a validation error and
    leaves the registry as it was: the same channels, the same size, the same
    counter; POST /channels with that name answers 400 with the error's
    message. In a reachable registry the error is the duplicate-name one. *)
Theorem create_used_name (name : jsstring) (this : Channels) :
  used_name name this ->
  exists e,
    create name this = (Throw e, this)
    /\ kind_of e = ValidationError
    /\ post_channels (Some (JString name)) this
       = (Throw (mkHttpError 400 (MessageOf e)), this)
    /\ (reachable this -> e = NameAlreadyUsed).
Proof.
  intros Hu.
  destruct (validateChannelName_rejects_used _ _ Hu) as (e & Hv & Hk & Hd).
  assert (Hcreate : create name this = (Throw e, this)).
  { unfold create, bind. now rewrite Hv. }
  exists e. split; [exact Hcreate|]. split; [exact Hk|]. split.
  - unfold post_channels. simpl. now rewrite Hcreate.
  - intros Hreach. apply Hd. apply reachable_ok in Hreach.
    now apply (used_name_checked name this).
Qed.

Lemma create_used_name_witness :
  create (lit "general") channels_at_start
  = (Throw NameAlreadyUsed, channels_at_start)
  /\ post_channels (Some (JString (lit "general"))) channels_at_start
     = (Throw (mkHttpError 400 (MessageOf NameAlreadyUsed)), channels_at_start).
Proof.
  assert (Hu : used_name (lit "general") channels_at_start).
  { exists (Channel.mk (Int 1) (lit "general") []). split; [|reflexivity].
    simpl. left. reflexivity. }
  assert (Hreach : reachable channels_at_start) by (exists []; reflexivity).
  destruct (create_used_name (lit "general") channels_at_start Hu)
    as (e & Hthrow & _ & Hpost & Hdup).
  rewrite (Hdup Hreach) in Hthrow, Hpost. split; assumption.
Defined.

(** The minimal variant has no uniqueness check: at the start of the process
    POST /channels with the name [general] answers with a third channel, and
    two live channels are then called [general]. *)
Lemma minimal_post_registers_used_name :
  used_name (lit "general") Minimal.state_at_start
  /\ Minimal.post_channels (Some (JString (lit "general"))) Minimal.state_at_start
     = (Return (ChannelBody (Channel.mk (Int 3) (lit "general") [])),
        mkChannels
          [(Int 1, Channel.mk (Int 1) (lit "general") []);
           (Int 2, Channel.mk (Int 2) (lit "random") []);
           (Int 3, Channel.mk (Int 3) (lit "general") [])]
          4)
  /\ JsMap.size (channels Minimal.state_at_start) = 2%nat
  /\ JsMap.size
       (channels
          (snd (Minimal.post_channels (Some (JString (lit "general")))
                  Minimal.state_at_start))) = 3%nat.
Proof.
  split; [|repeat split].
  exists (Channel.mk (Int 1) (lit "general") []). split; [|reflexivity].
  simpl. left. reflexivity.
Qed.

(** C8. For every live channel, [changeName] to the name the channel already
    bears throws a validation error and leaves the registry as it was: the
    uniqueness check runs over all channels, the renamed one included, so in
    a reachable registry the error is the duplicate-name one. *)
Theorem changeName_to_current_name (id : number) (channel : Channel.t)
    (this : Channels) :
  getChannel id this = Some channel ->
  exists e,
    changeName id (Channel.name channel) this = (Throw e, this)
    /\ kind_of e = ValidationError
    /\ (reachable this -> e = NameAlreadyUsed).
Proof.
  intros Hget.
  assert (Hu : used_name (Channel.name channel) this).
  { exists channel. split; [|reflexivity].
    unfold getAllChannels. eapply get_In_values. exact Hget. }
  destruct (validateChannelName_rejects_used _ _ Hu) as (e & Hv & Hk & Hd).
  exists e. split; [|split]; [|exact Hk|].
  - unfold changeName, bind, read. unfold getChannel in Hget.
    rewrite Hget. unfold bind. now rewrite Hv.
  - intros Hreach. apply Hd. apply reachable_ok in Hreach.
    now apply (used_name_checked _ this).
Qed.

Lemma changeName_to_current_name_witness :
  changeName (Int 2) (lit "random") channels_at_start
  = (Throw NameAlreadyUsed, channels_at_start)
  /\ kind_of NameAlreadyUsed = ValidationError.
Proof.
  assert (Hreach : reachable channels_at_start) by (exists []; reflexivity).
  destruct (changeName_to_current_name (Int 2)
              (Channel.mk (Int 2) (lit "random") []) channels_at_start eq_refl)
    as (e & Hthrow & Hkind & Hdup).
  rewrite (Hdup Hreach) in Hthrow, Hkind. split; assumption.
Defined.

(** C4. For a live id and a valid name that no live channel bears,
    [changeName] stores under that id a record with the new name and the old
    id and messages, returns it, and [getChannel] then yields it; every other
    binding, the order of the keys and the counter stay. For an id that is
    not bound, [changeName] throws the not-found error, whatever the name,
    and changes nothing. *)
Theorem changeName_spec (id : number) (newName : jsstring) (this : Channels) :
  (forall channel,
     getChannel id this = Some channel ->
     valid_name newName ->
     unused_name newName this ->
     let newChannel :=
       Channel.mk (Channel.id channel) newName (Channel.messages channel) in
     let this' :=
       mkChannels (JsMap.set id newChannel (channels this)) (nextChannelId this) in
     changeName id newName this = (Return newChannel, this')
     /\ getChannel id this' = Some newChannel
     /\ (forall id', id <> id' -> getChannel id' this' = getChannel id' this)
     /\ JsMap.keys (channels this') = JsMap.keys (channels this))
  /\ (getChannel id this = None ->
      changeName id newName this = (Throw ChannelDoesNotExist, this)
      /\ kind_of ChannelDoesNotExist = NotFoundError).
Proof.
  unfold getChannel. split.
  - intros channel Hget Hv Hu.
    split; [|split; [|split]].
    + unfold changeName, bind, read. rewrite Hget. unfold bind.
      now rewrite (validateChannelName_accepts _ _ Hv Hu).
    + simpl. apply get_set_same.
    + intros id' Hne. simpl. now apply get_set_other.
    + simpl. eapply keys_set_present. exact Hget.
  - intros Hget. split; [|reflexivity].
    unfold changeName, bind, read. now rewrite Hget.
Qed.

Lemma changeName_spec_witness :
  (changeName (Int 1) (lit "lobby") example_registry
   = (Return (Channel.mk (Int 1) (lit "lobby") [example_message]),
      mkChannels
        [(Int 1, Channel.mk (Int 1) (lit "lobby") [example_message]);
         (Int 2, Channel.mk (Int 2) (lit "random") [])]
        3)
   /\ getChannel (Int 1)
        (mkChannels
           [(Int 1, Channel.mk (Int 1) (lit "lobby") [example_message]);
            (Int 2, Channel.mk (Int 2) (lit "random") [])]
           3)
      = Some (Channel.mk (Int 1) (lit "lobby") [example_message]))
  /\ changeName (Int 7) (lit "lobby") example_registry
     = (Throw ChannelDoesNotExist, example_registry).
Proof.
  split.
  - assert (Hv : valid_name (lit "lobby")) by prove_valid_name.
    assert (Hu : unused_name (lit "lobby") example_registry)
      by prove_unused_name.
    pose proof (proj1 (changeName_spec (Int 1) (lit "lobby") example_registry)
                  (Channel.mk (Int 1) (lit "general") [example_message])
                  eq_refl Hv Hu) as H.
    split; [exact (proj1 H) | exact (proj1 (proj2 H))].
  - exact (proj1 (proj2 (changeName_spec (Int 7) (lit "lobby") example_registry)
                    eq_refl)).
Defined.

(** C6. [deleteChannel] returns for every id and never throws; deleting the
    same id a second time returns too and leaves the registry as the first
    deletion left it. The id is then unbound, the other bindings and the
    counter are untouched, and deleting an id that was not bound changes
    nothing at all. *)
Theorem deleteChannel_idempotent (id : number) (this : Channels) :
  let this1 :=
    mkChannels (JsMap.delete id (channels this)) (nextChannelId this) in
  deleteChannel id this = (Return tt, this1)
  /\ deleteChannel id this1 = (Return tt, this1)
  /\ getChannel id this1 = None
  /\ (forall id', id <> id' -> getChannel id' this1 = getChannel id' this)
  /\ (getChannel id this = None -> this1 = this).
Proof.
  intros this1. unfold deleteChannel, getChannel. subst this1. simpl.
  repeat split.
  - now rewrite delete_delete.
  - apply get_delete_same.
  - intros id' Hne. now apply get_delete_other.
  - intros Habsent. rewrite (delete_absent _ _ Habsent). now destruct this.
Qed.

Lemma deleteChannel_idempotent_witness :
  deleteChannel (Int 2) example_registry
  = (Return tt,
     mkChannels [(Int 1, Channel.mk (Int 1) (lit "general") [example_message])] 3)
  /\ deleteChannel (Int 2)
       (mkChannels
          [(Int 1, Channel.mk (Int 1) (lit "general") [example_message])] 3)
     = (Return tt,
        mkChannels
          [(Int 1, Channel.mk (Int 1) (lit "general") [example_message])] 3)
  /\ mkChannels (JsMap.delete NaN (channels example_registry))
       (nextChannelId example_registry) = example_registry.
Proof.
  pose proof (deleteChannel_idempotent (Int 2) example_registry) as H.
  pose proof (deleteChannel_idempotent NaN example_registry) as H'.
  split; [exact (proj1 H)|].
  split; [exact (proj1 (proj2 H))|].
  exact (proj2 (proj2 (proj2 (proj2 H'))) eq_refl).
Defined.


(** ** Identifiers *)

Lemma step_issues (op : Op) (this : Channels) :
  (fst (step op this) = []
   /\ nextChannelId (snd (step op this)) = nextChannelId this)
  \/ (fst (step op this) = [Int (nextChannelId this)]
      /\ nextChannelId (snd (step op this)) = js_succ (nextChannelId this)).
Proof.
  destruct op as [name|id name|id|id message]; simpl.
  - destruct (create_cases name this) as [[e ->]|(_ & _ & ->)]; simpl; auto.
  - left. split; [reflexivity|].
    destruct (changeName_cases id name this)
      as [[e ->]|(channel & _ & _ & _ & ->)]; reflexivity.
  - left. split; reflexivity.
  - left. destruct (getChannel id this); split; reflexivity.
Qed.

Lemma run_counter_mono (ops : list Op) (this : Channels) :
  nextChannelId this <= nextChannelId (snd (run ops this)).
Proof.
  revert this. induction ops as [|op ops IH]; intros this; simpl; [lia|].
  pose proof (step_issues op this) as Hs.
  destruct (step op this) as [ids this1]. simpl in Hs.
  specialize (IH this1). destruct (run ops this1) as [ids' this2]. simpl in *.
  pose proof (js_succ_ge (nextChannelId this)).
  destruct Hs as [[_ E]|[_ E]]; lia.
Qed.

(** While the counter is below [2^53], the ids a run issues are the
    successive values of the counter. *)
Lemma run_issues_increasing (ops : list Op) (this : Channels) :
  nextChannelId (snd (run ops this)) < two53 ->
  StronglySorted number_lt (fst (run ops this))
  /\ Forall
       (fun issued =>
          exists z, issued = Int z
                    /\ nextChannelId this <= z < nextChannelId (snd (run ops this)))
       (fst (run ops this)).
Proof.
  revert this. induction ops as [|op ops IH]; intros this; simpl.
  { intros _. split; constructor. }
  pose proof (step_issues op this) as Hs.
  destruct (step op this) as [ids this1]. simpl in Hs.
  pose proof (run_counter_mono ops this1) as Hmono.
  specialize (IH this1). destruct (run ops this1) as [ids' this2]. simpl in *.
  intros Hlt. destruct (IH Hlt) as [Hsorted Hall].
  destruct Hs as [[-> E]|[-> E]]; simpl.
  - rewrite E in *. split; assumption.
  - pose proof (js_succ_ge (nextChannelId this)) as Hge.
    rewrite js_succ_exact in E by lia.
    split.
    + constructor; [assumption|].
      eapply Forall_impl; [|exact Hall].
      intros issued (z & -> & Hz). simpl. lia.
    + constructor.
      * exists (nextChannelId this). split; [reflexivity|lia].
      * eapply Forall_impl; [|exact Hall].
        intros issued (z & -> & Hz). exists z. split; [reflexivity|lia].
Qed.

(** C7, as amended. In a process lifetime in which the counter is still
    below [2^53] (the integers a JS number counts exactly): every id a
    successful [create] returned is strictly greater than all ids returned
    before it; and for every live channel, once it is deleted, [create] with
    its name succeeds and returns an id strictly greater than every id issued
    so far, bound to the new channel. *)
Theorem ids_never_reused (ops : list Op) :
  let issued := fst (lifetime ops) in
  let this := snd (lifetime ops) in
  nextChannelId this < two53 ->
  StronglySorted number_lt issued
  /\ forall id channel,
       getChannel id this = Some channel ->
       let this1 := snd (deleteChannel id this) in
       let fresh := Channel.mk (Int (nextChannelId this)) (Channel.name channel) [] in
       exists this2,
         create (Channel.name channel) this1 = (Return fresh, this2)
         /\ Forall (fun earlier => number_lt earlier (Channel.id fresh)) issued
         /\ getChannel (Channel.id fresh) this2 = Some fresh
         /\ nextChannelId this2 = nextChannelId this + 1.
Proof.
  intros issued this Hlt.
  destruct (run_issues_increasing _ new_Channels Hlt) as [Hsorted Hall].
  fold (lifetime ops) in Hsorted, Hall. fold issued in Hsorted, Hall. fold this in Hall.
  split; [exact Hsorted|].
  intros id channel Hget this1 fresh.
  assert (Hok : registry_ok this).
  { apply reachable_ok. now exists ops. }
  destruct Hok as [Hc Hk Hn Hd].
  assert (Hchk : passes_name_checks (Channel.name channel) = true).
  { apply Hn. eapply get_In_values. exact Hget. }
  assert (Hu : unused_name (Channel.name channel) this1).
  { intros x Hx. unfold this1, getAllChannels in Hx. simpl in Hx.
    eapply delete_releases; eassumption. }
  destruct (create_cases (Channel.name channel) this1)
    as [[e He]|(_ & _ & Hcreate)].
  - exfalso. unfold create, bind in He.
    rewrite validateChannelName_unfold in He.
    unfold passes_name_checks in Hchk.
    apply andb_true_iff in Hchk as [Hchk H3].
    apply andb_true_iff in Hchk as [H1 H2].
    apply negb_true_iff in H1, H2.
    rewrite H1, H2, H3, (unused_name_existsb _ _ Hu) in He.
    simpl in He. discriminate.
  - eexists. split; [exact Hcreate|]. simpl.
    split; [|split].
    + eapply Forall_impl; [|exact Hall].
      intros earlier (z & -> & Hz). simpl. lia.
    + unfold getChannel. simpl. apply get_set_same.
    + apply js_succ_exact. exact Hlt.
Qed.

Lemma ids_never_reused_witness :
  StronglySorted number_lt
    (fst (lifetime [OpCreate (lit "dev"); OpDelete (Int 1)]))
  /\ exists this2,
       create (lit "random")
         (snd (deleteChannel (Int 2)
                 (snd (lifetime [OpCreate (lit "dev"); OpDelete (Int 1)]))))
       = (Return (Channel.mk (Int 4) (lit "random") []), this2)
       /\ Forall (fun earlier => number_lt earlier (Int 4))
            (fst (lifetime [OpCreate (lit "dev"); OpDelete (Int 1)]))
       /\ getChannel (Int 4) this2 = Some (Channel.mk (Int 4) (lit "random") [])
       /\ nextChannelId this2 = 5.
Proof.
  assert (Hlt : nextChannelId
                  (snd (lifetime [OpCreate (lit "dev"); OpDelete (Int 1)]))
                < two53) by (vm_compute; reflexivity).
  pose proof (ids_never_reused [OpCreate (lit "dev"); OpDelete (Int 1)] Hlt)
    as [Hsorted Hfresh].
  split; [exact Hsorted|].
  exact (Hfresh (Int 2) (Channel.mk (Int 2) (lit "random") []) eq_refl).
Defined.

Lemma run_app (ops ops' : list Op) (this : Channels) :
  run (ops ++ ops') this =
  (fst (run ops this) ++ fst (run ops' (snd (run ops this))),
   snd (run ops' (snd (run ops this)))).
Proof.
  revert this. induction ops as [|op ops IH]; intros this; simpl.
  - now destruct (run ops' this).
  - destruct (step op this) as [ids this1]. rewrite IH.
    destruct (run ops this1) as [ids1 this2]. simpl.
    now rewrite app_assoc.
Qed.

Lemma lifetime_run (ops : list Op) :
  lifetime ops =
  (Int 1 :: Int 2 :: fst (run ops channels_at_start),
   snd (run ops channels_at_start)).
Proof.
  unfold lifetime.
  change (OpCreate (lit "general") :: OpCreate (lit "random") :: ops)
    with ([OpCreate (lit "general"); OpCreate (lit "random")] ++ ops).
  rewrite run_app. reflexivity.
Qed.

(** One round of creating and deleting [dev] while the counter is exact:
    the round gets the counter's value, and only the counter has changed. *)
Lemma churn_round_run (k : N) :
  3 + Z.of_N k < two53 ->
  run (churn_round k)
    (mkChannels (channels channels_at_start) (3 + Z.of_N k))
  = ([Int (3 + Z.of_N k)],
     mkChannels (channels channels_at_start) (3 + Z.of_N (N.succ k))).
Proof.
  intros Hlt. unfold churn_round, run, step.
  assert (Hv : valid_name (lit "dev")) by prove_valid_name.
  assert (Hu : unused_name (lit "dev")
                 (mkChannels (channels channels_at_start) (3 + Z.of_N k)))
    by prove_unused_name.
  unfold create, bind. rewrite (validateChannelName_accepts _ _ Hv Hu).
  cbn [issueNextChannelId channels_set ret deleteChannel snd fst app
       channels nextChannelId Channel.id].
  rewrite js_succ_exact by exact Hlt.
  replace (3 + Z.of_N k + 1) with (3 + Z.of_N (N.succ k)) by lia.
  change (channels channels_at_start)
    with [(Int 1, Channel.mk (Int 1) (lit "general") []);
          (Int 2, Channel.mk (Int 2) (lit "random") [])].
  assert (E1 : (1 =? 3 + Z.of_N k) = false) by (apply Z.eqb_neq; lia).
  assert (E2 : (2 =? 3 + Z.of_N k) = false) by (apply Z.eqb_neq; lia).
  cbn [JsMap.set SameValueZero]. rewrite E1, E2.
  cbn [JsMap.delete filter fst SameValueZero negb]. rewrite E1, E2, Z.eqb_refl.
  reflexivity.
Qed.

Lemma churn_run (n : N) :
  3 + Z.of_N n <= two53 ->
  snd (run (churn n) channels_at_start)
  = mkChannels (channels channels_at_start) (3 + Z.of_N n).
Proof.
  induction n as [|k IH] using N.peano_ind; intros Hle.
  - reflexivity.
  - unfold churn in *. rewrite N.peano_rect_succ. rewrite run_app. cbn [snd].
    rewrite IH by lia. rewrite churn_round_run by lia. reflexivity.
Qed.

Lemma StronglySorted_app_tail {A} (R : A -> A -> Prop) (l l' : list A) :
  StronglySorted R (l ++ l') -> StronglySorted R l'.
Proof.
  induction l as [|a l IH]; simpl; [tauto|].
  intros H. inversion H; auto.
Qed.

(** After [2^53 - 3] rounds the counter is [2^53] and no longer moves: the
    two [create]s that end [saturating_ops] both return the id [2^53]. So the
    ids of that lifetime do not increase strictly, and [dev], created anew
    after its deletion, gets the id it had. *)
Lemma ids_reused_at_two53 :
  (exists earlier,
      fst (lifetime saturating_ops) = earlier ++ [Int two53; Int two53])
  /\ ~ StronglySorted number_lt (fst (lifetime saturating_ops)).
Proof.
  assert (H : exists earlier,
             fst (lifetime saturating_ops) = earlier ++ [Int two53; Int two53]).
  { rewrite lifetime_run. unfold saturating_ops. rewrite run_app.
    rewrite churn_run by (vm_compute; discriminate).
    exists (Int 1 :: Int 2 :: fst (run (churn (2 ^ 53 - 3)) channels_at_start)).
    cbn [fst]. rewrite !app_comm_cons. f_equal. }
  split; [exact H|].
  destruct H as [earlier ->]. intros Hsorted.
  apply StronglySorted_app_tail in Hsorted.
  inversion Hsorted as [|? ? _ Hall]; subst.
  inversion Hall as [|? ? Hlt _]; subst.
  simpl in Hlt. lia.
Qed.

(** ** Routes *)

(** In a reachable registry only integers are bound. *)
Lemma getChannel_not_integer (id : number) (this : Channels) :
  registry_ok this -> (forall z, id <> Int z) -> getChannel id this = None.
Proof.
  intros Hok Hid. unfold getChannel. apply get_None_keys.
  intros Hin. unfold JsMap.keys in Hin.
  apply in_map_iff in Hin as ([k channel] & Hk & Hin). simpl in Hk. subst k.
  destruct (keys_issued _ Hok _ _ Hin) as (z & -> & _). now apply (Hid z).
Qed.

(** C10. In every reachable registry, a PATCH or DELETE of [/channels/:id]
    whose [Number(id)] is NaN, or is a number bound to no channel, throws the
    404 error 'Channel not found', the response has status 404, and the
    registry is as it was. *)
Theorem unknown_id_is_404 (Number : jsstring -> number) (idString : jsstring)
    (newName : unknown) (this : Channels) :
  reachable this ->
  Number idString = NaN \/ getChannel (Number idString) this = None ->
  patch_channels Number idString newName this
  = (Throw (mkHttpError 404 ChannelNotFound), this)
  /\ delete_channels Number idString this
     = (Throw (mkHttpError 404 ChannelNotFound), this)
  /\ respond (fst (patch_channels Number idString newName this))
     = mkResponse 404 (Failed ChannelNotFound)
  /\ respond (fst (delete_channels Number idString this))
     = mkResponse 404 (Failed ChannelNotFound).
Proof.
  intros Hreach Hid.
  assert (Hnone : getChannel (Number idString) this = None).
  { destruct Hid as [Hnan|Hnone]; [|assumption].
    apply getChannel_not_integer; [now apply reachable_ok|].
    rewrite Hnan. discriminate. }
  unfold patch_channels, delete_channels. rewrite Hnone. repeat split.
Qed.

Lemma unknown_id_is_404_witness :
  (patch_channels (fun _ => NaN) (lit "abc") (Some (JString (lit "lobby")))
     example_registry
   = (Throw (mkHttpError 404 ChannelNotFound), example_registry)
   /\ delete_channels (fun _ => NaN) (lit "abc") example_registry
      = (Throw (mkHttpError 404 ChannelNotFound), example_registry))
  /\ (patch_channels (fun _ => Int 7) (lit "7") (Some (JString (lit "lobby")))
        example_registry
      = (Throw (mkHttpError 404 ChannelNotFound), example_registry)
      /\ delete_channels (fun _ => Int 7) (lit "7") example_registry
         = (Throw (mkHttpError 404 ChannelNotFound), example_registry)).
Proof.
  assert (Hreach : reachable example_registry).
  { exists [OpPush (Int 1) example_message]. reflexivity. }
  pose proof (unknown_id_is_404 (fun _ => NaN) (lit "abc")
                (Some (JString (lit "lobby"))) example_registry Hreach
                (or_introl eq_refl)) as H.
  pose proof (unknown_id_is_404 (fun _ => Int 7) (lit "7")
                (Some (JString (lit "lobby"))) example_registry Hreach
                (or_intror eq_refl)) as H'.
  split.
  - split; [exact (proj1 H) | exact (proj1 (proj2 H))].
  - split; [exact (proj1 H') | exact (proj1 (proj2 H'))].
Defined.

(** At the route, a second DELETE of the same id is answered 404, and the
    registry is as the first one left it. *)
Lemma delete_channels_twice (Number : jsstring -> number) (idString : jsstring)
    (this : Channels) :
  let this1 := snd (delete_channels Number idString this) in
  delete_channels Number idString this1
  = (Throw (mkHttpError 404 ChannelNotFound), this1).
Proof.
  intros this1. subst this1.
  destruct (getChannel (Number idString) this) as [channel|] eqn:E.
  - assert (H : snd (delete_channels Number idString this)
                = mkChannels (JsMap.delete (Number idString) (channels this))
                    (nextChannelId this)).
    { unfold delete_channels. now rewrite E. }
    rewrite H. unfold delete_channels, getChannel. simpl.
    now rewrite get_delete_same.
  - assert (H : snd (delete_channels Number idString this) = this).
    { unfold delete_channels. now rewrite E. }
    rewrite H. unfold delete_channels. now rewrite E.
Qed.

(** ** The message relay *)

Lemma message_shape_isNewMessage (data : json) (channelId : number)
    (userName text : jsstring) :
  message_shape data channelId userName text ->
  isNewMessage data = true
  /\ number_field data (lit "channelId") = channelId
  /\ string_field data (lit "userName") = userName
  /\ string_field data (lit "text") = text.
Proof.
  intros (Htype & Hid & Hname & Htext).
  unfold isNewMessage, number_field, string_field.
  rewrite Htype, Hid, Hname, Htext.
  destruct data; try discriminate. repeat split.
Qed.

Lemma isNewMessage_message_shape (data : json) :
  isNewMessage data = true ->
  message_shape data (number_field data (lit "channelId"))
    (string_field data (lit "userName")) (string_field data (lit "text")).
Proof.
  unfold isNewMessage, message_shape, number_field, string_field, strict_eq_string.
  intros H. repeat (apply andb_true_iff in H as [H ?]).
  destruct (get_prop data (lit "type")) as [[]|]; try discriminate.
  destruct (get_prop data (lit "channelId")) as [[]|]; try discriminate.
  destruct (get_prop data (lit "userName")) as [[]|]; try discriminate.
  destruct (get_prop data (lit "text")) as [[]|]; try discriminate.
  repeat split. f_equal. f_equal. now apply jsstring_eqb_eq.
Qed.

Lemma length_lt_1 (s : jsstring) : Nat.ltb (List.length s) 1 = true <-> s = [].
Proof.
  destruct s; simpl; split; try reflexivity; try discriminate.
Qed.

Lemma frames_to_broadcast (JSON_stringify : json -> jsstring)
    (clients : list Client) (data : json) (client : Client) :
  NoDup clients -> In client clients ->
  frames_to client (broadcast JSON_stringify (Some clients) data)
  = [JSON_stringify data].
Proof.
  unfold frames_to. simpl. induction clients as [|c clients IH]; intros Hnd Hin.
  - destruct Hin.
  - inversion Hnd as [|? ? Hnotin Hnd']; subst. simpl.
    destruct (Nat.eqb_spec c client) as [->|Hne]; simpl.
    + f_equal.
      assert (Hnone : forall l, ~ In client l ->
                map frame_of
                  (filter (fun s => Nat.eqb (receiver s) client)
                     (map (fun c => SendTo c (JSON_stringify data)) l)) = []).
      { induction l as [|x l IHl]; simpl; [reflexivity|]. intros Hx.
        destruct (Nat.eqb_spec x client) as [->|_]; [tauto|]. apply IHl. tauto. }
      now apply Hnone.
    + destruct Hin as [->|Hin]; [contradiction|]. now apply IH.
Qed.

Lemma on_message_accepts
    (JSON_parse : jsstring -> Completion jsstring json)
    (JSON_stringify : json -> jsstring)
    (server : option (list Client)) (websocket : Client) (rawData : jsstring)
    (this : Channels) (data : json) (channelId : number)
    (userName text : jsstring) (channel : Channel.t) :
  well_formed JSON_parse rawData this data channelId userName text channel ->
  on_message JSON_parse JSON_stringify server websocket rawData this
  = (broadcast JSON_stringify server data,
     messages_push channelId channel (Message.mk userName text) this).
Proof.
  intros (Hparse & Hshape & Hname & Htext & Hget).
  apply message_shape_isNewMessage in Hshape as (Hnew & Hid & Hu & Ht).
  unfold on_message. rewrite Hparse, Hnew, Hid, Hu, Ht, Hget. simpl negb.
  destruct (Nat.ltb (List.length userName) 1) eqn:E1.
  { apply length_lt_1 in E1. contradiction. }
  destruct (Nat.ltb (List.length text) 1) eqn:E2.
  { apply length_lt_1 in E2. contradiction. }
  reflexivity.
Qed.

(** C2. For a payload that parses, has the shape
    [{type: "message", channelId, userName, text}] with a non-empty [userName]
    and [text], and whose [channelId] is bound to a channel: the handler
    appends [{userName, text}] once at the end of that channel's messages,
    leaves every other binding as it was, and sends every connected client,
    the sender among them, exactly one frame, the serialization of the parsed
    payload. *)
Theorem accepted_message_is_stored_and_broadcast
    (JSON_parse : jsstring -> Completion jsstring json)
    (JSON_stringify : json -> jsstring)
    (clients : list Client) (websocket : Client) (rawData : jsstring)
    (this : Channels) (data : json) (channelId : number)
    (userName text : jsstring) (channel : Channel.t) :
  well_formed JSON_parse rawData this data channelId userName text channel ->
  NoDup clients ->
  In websocket clients ->
  let stored :=
    Channel.mk (Channel.id channel) (Channel.name channel)
      (Channel.messages channel ++ [Message.mk userName text]) in
  let this' :=
    mkChannels (JsMap.set channelId stored (channels this)) (nextChannelId this) in
  let sent := map (fun client => SendTo client (JSON_stringify data)) clients in
  on_message JSON_parse JSON_stringify (Some clients) websocket rawData this
  = (sent, this')
  /\ getChannel channelId this' = Some stored
  /\ (forall id, channelId <> id -> getChannel id this' = getChannel id this)
  /\ JsMap.keys (channels this') = JsMap.keys (channels this)
  /\ (forall client, In client clients ->
        frames_to client sent = [JSON_stringify data])
  /\ frames_to websocket sent = [JSON_stringify data].
Proof.
  intros Hwf Hnd Hin stored this' sent.
  split; [|split; [|split; [|split; [|split]]]].
  - now rewrite (on_message_accepts _ _ _ _ _ _ _ _ _ _ _ Hwf).
  - unfold getChannel. simpl. apply get_set_same.
  - intros id Hne. unfold getChannel. simpl. now apply get_set_other.
  - simpl. destruct Hwf as (_ & _ & _ & _ & Hget).
    eapply keys_set_present. exact Hget.
  - intros client Hc. now apply (frames_to_broadcast JSON_stringify).
  - now apply (frames_to_broadcast JSON_stringify).
Qed.

Lemma example_well_formed :
  well_formed example_parse example_raw channels_at_start example_payload
    (Int 1) (lit "al") (lit "hi") (Channel.mk (Int 1) (lit "general") []).
Proof.
  repeat split; try reflexivity; discriminate.
Defined.

Lemma accepted_message_is_stored_and_broadcast_witness :
  on_message example_parse example_stringify (Some [4; 5; 6]%nat) 5%nat
    example_raw channels_at_start
  = ([SendTo 4%nat example_raw; SendTo 5%nat example_raw; SendTo 6%nat example_raw],
     example_registry)
  /\ getChannel (Int 1) example_registry
     = Some (Channel.mk (Int 1) (lit "general") [example_message])
  /\ frames_to 5%nat
       [SendTo 4%nat example_raw; SendTo 5%nat example_raw; SendTo 6%nat example_raw]
     = [example_raw].
Proof.
  assert (Hnd : NoDup [4; 5; 6]%nat).
  { repeat constructor; simpl; intros H;
      repeat (destruct H as [H|H]; [discriminate|]); destruct H. }
  assert (Hin : In 5%nat [4; 5; 6]%nat) by (right; left; reflexivity).
  pose proof (accepted_message_is_stored_and_broadcast example_parse
                example_stringify [4; 5; 6]%nat 5%nat example_raw
                channels_at_start example_payload (Int 1) (lit "al") (lit "hi")
                (Channel.mk (Int 1) (lit "general") [])
                example_well_formed Hnd Hin) as H.
  split; [exact (proj1 H)|].
  split; [exact (proj1 (proj2 H))|].
  exact (proj2 (proj2 (proj2 (proj2 (proj2 H))))).
Defined.

(** C3. For a payload that is rejected (it does not parse, or a field of
    the shape is missing or of another type, or [userName] or [text] is empty,
    or [channelId] is bound to no channel) the handler sends one frame, an
    error frame, to the connection the payload came from, sends nothing to
    any other connection, and leaves the registry, and so every channel's
    messages, as it was. *)
Theorem rejected_message_error_to_sender
    (JSON_parse : jsstring -> Completion jsstring json)
    (JSON_stringify : json -> jsstring)
    (server : option (list Client)) (websocket : Client) (rawData : jsstring)
    (this : Channels) :
  rejected JSON_parse rawData this ->
  exists message,
    on_message JSON_parse JSON_stringify server websocket rawData this
    = ([SendTo websocket (JSON_stringify (error_object message))], this)
    /\ forall client, client <> websocket ->
         frames_to client
           (fst (on_message JSON_parse JSON_stringify server websocket rawData this))
         = [].
Proof.
  intros Hrej.
  assert (Hone : exists message,
             on_message JSON_parse JSON_stringify server websocket rawData this
             = ([SendTo websocket (JSON_stringify (error_object message))], this)).
  { unfold on_message, send_error.
    destruct Hrej as [[e ->]|(data & -> & Hrej)]; [eauto|].
    destruct Hrej as [Hnone|(channelId & userName & text & Hshape & Hbad)].
    - destruct (isNewMessage data) eqn:E; simpl; [|eauto].
      apply isNewMessage_message_shape in E. now apply Hnone in E.
    - apply message_shape_isNewMessage in Hshape as (-> & -> & -> & ->). simpl.
      destruct (Nat.ltb (List.length userName) 1) eqn:E1; [eauto|].
      destruct (Nat.ltb (List.length text) 1) eqn:E2; [eauto|].
      destruct Hbad as [-> | [-> | ->]]; try discriminate. eauto. }
  destruct Hone as [message Hone]. exists message. split; [exact Hone|].
  intros client Hne. rewrite Hone. unfold frames_to. simpl.
  destruct (Nat.eqb_spec websocket client) as [E|_]; [congruence|reflexivity].
Qed.

Lemma rejected_message_error_to_sender_witness :
  exists message,
    on_message example_parse example_stringify (Some [4; 5; 6]%nat) 5%nat
      (lit "{") example_registry
    = ([SendTo 5%nat (example_stringify (error_object message))], example_registry)
    /\ forall client, client <> 5%nat ->
         frames_to client
           (fst (on_message example_parse example_stringify (Some [4; 5; 6]%nat)
                   5%nat (lit "{") example_registry))
         = [].
Proof.
  apply (rejected_message_error_to_sender example_parse example_stringify
           (Some [4; 5; 6]%nat) 5%nat (lit "{") example_registry).
  left. exists (lit "Unexpected token"). reflexivity.
Defined.

(** C9. For an accepted payload that carries a property beyond [type],
    [channelId], [userName] and [text]: the message appended to the channel
    is [{userName, text}] and nothing else, while every connected client is
    sent the serialization of the whole parsed payload, which still has the
    extra property; a client that parses its frame back reads that
    property. *)
Theorem extra_properties_are_relayed
    (JSON_parse : jsstring -> Completion jsstring json)
    (JSON_stringify : json -> jsstring)
    (clients : list Client) (websocket : Client) (rawData : jsstring)
    (this : Channels) (data : json) (channelId : number)
    (userName text : jsstring) (channel : Channel.t)
    (key : jsstring) (value : json) :
  well_formed JSON_parse rawData this data channelId userName text channel ->
  ~ In key [lit "type"; lit "channelId"; lit "userName"; lit "text"] ->
  get_prop data key = Some value ->
  let sent :=
    fst (on_message JSON_parse JSON_stringify (Some clients) websocket rawData this) in
  let this' :=
    snd (on_message JSON_parse JSON_stringify (Some clients) websocket rawData this) in
  getChannel channelId this'
  = Some (Channel.mk (Channel.id channel) (Channel.name channel)
            (Channel.messages channel ++ [Message.mk userName text]))
  /\ (forall client, In client clients ->
        In (SendTo client (JSON_stringify data)) sent)
  /\ (forall client frame, In (SendTo client frame) sent ->
        In client clients
        /\ frame = JSON_stringify data
        /\ (JSON_parse (JSON_stringify data) = Return data ->
            exists received,
              JSON_parse frame = Return received
              /\ get_prop received key = Some value)).
Proof.
  intros Hwf Hkey Hextra sent this'. subst sent this'.
  rewrite (on_message_accepts _ _ _ _ _ _ _ _ _ _ _ Hwf). simpl.
  split; [|split].
  - unfold getChannel. simpl. apply get_set_same.
  - intros client Hin. apply in_map_iff. now exists client.
  - intros client frame Hin. apply in_map_iff in Hin as (c & Heq & Hc).
    injection Heq as -> <-. repeat split; [assumption|].
    intros Hround. exists data. now split.
Qed.

Lemma extra_properties_are_relayed_witness :
  getChannel (Int 1)
    (snd (on_message example_parse example_stringify (Some [4; 5; 6]%nat) 5%nat
            example_raw channels_at_start))
  = Some (Channel.mk (Int 1) (lit "general") [Message.mk (lit "al") (lit "hi")])
  /\ (forall client, In client [4; 5; 6]%nat ->
        In (SendTo client (example_stringify example_payload))
          (fst (on_message example_parse example_stringify (Some [4; 5; 6]%nat)
                  5%nat example_raw channels_at_start)))
  /\ (forall client frame,
        In (SendTo client frame)
          (fst (on_message example_parse example_stringify (Some [4; 5; 6]%nat)
                  5%nat example_raw channels_at_start)) ->
        In client [4; 5; 6]%nat
        /\ frame = example_stringify example_payload
        /\ (example_parse (example_stringify example_payload)
            = Return example_payload ->
            exists received,
              example_parse frame = Return received
              /\ get_prop received (lit "color") = Some (JString (lit "red")))).
Proof.
  apply (extra_properties_are_relayed example_parse example_stringify
           [4; 5; 6]%nat 5%nat example_raw channels_at_start example_payload
           (Int 1) (lit "al") (lit "hi") (Channel.mk (Int 1) (lit "general") [])
           (lit "color") (JString (lit "red")) example_well_formed).
  - simpl. intros H.
    repeat (destruct H as [H|H]; [discriminate|]). destruct H.
  - reflexivity.
Defined.

(** * Further properties of the code *)

(** ** Names *)

Lemma existsb_eqb_In (u : code_unit) (l : jsstring) :
  existsb (N.eqb u) l = true -> In u l.
Proof.
  intros H. apply existsb_exists in H as (x & Hin & Heq).
  apply N.eqb_eq in Heq. now subst.
Qed.

Lemma in_name_class_bound (u : code_unit) :
  in_name_class u = true -> (u < 123)%N.
Proof.
  unfold in_name_class. intros H.
  repeat (apply orb_true_iff in H as [H|H]);
    try (apply andb_true_iff in H as [_ H]; apply N.leb_le in H; lia);
    apply N.eqb_eq in H; lia.
Qed.

(** The class test and the alphabet agree on every code unit. *)
Lemma in_name_class_iff (u : code_unit) :
  in_name_class u = true <-> In u name_alphabet.
Proof.
  split; [|apply in_name_class_alphabet].
  intros H. pose proof (in_name_class_bound u H) as Hlt.
  assert (Hall : forallb
                   (fun n => implb (in_name_class (N.of_nat n))
                               (existsb (N.eqb (N.of_nat n)) name_alphabet))
                   (seq 0 123) = true) by (vm_compute; reflexivity).
  rewrite forallb_forall in Hall.
  specialize (Hall (N.to_nat u)). rewrite N2Nat.id, H in Hall.
  apply existsb_eqb_In. apply Hall. apply in_seq. lia.
Qed.

Lemma passes_name_checks_valid (name : jsstring) :
  passes_name_checks name = true <-> valid_name name.
Proof.
  unfold passes_name_checks, valid_name, name_regex_test. split.
  - intros H. apply andb_true_iff in H as [H H3].
    apply andb_true_iff in H as [H1 H2].
    apply negb_true_iff in H1, H2.
    apply Nat.eqb_neq in H1. apply Nat.ltb_ge in H2.
    split; [lia|]. apply Forall_forall. intros u Hu.
    apply in_name_class_iff. rewrite forallb_forall in H3. now apply H3.
  - intros [[Hlo Hhi] Hall].
    apply andb_true_iff. split; [apply andb_true_iff; split|].
    + apply negb_true_iff. apply Nat.eqb_neq. lia.
    + apply negb_true_iff. apply Nat.ltb_ge. lia.
    + apply forallb_forall. intros u Hu. apply in_name_class_iff.
      rewrite Forall_forall in Hall. now apply Hall.
Qed.

(** X1. [create] returns a channel exactly when the name has 1 to 15
    characters, all of [[A-Za-z0-9_-]], and no live channel bears it; in every
    other case it throws and the registry is as it was. *)
Theorem create_returns_iff (name : jsstring) (this : Channels) :
  ((exists channel this', create name this = (Return channel, this'))
   <-> (valid_name name /\ unused_name name this))
  /\ (forall e this', create name this = (Throw e, this') -> this' = this).
Proof.
  split; [split|].
  - intros (channel & this' & Hcreate).
    destruct (create_cases name this) as [[e He]|(Hchk & Hu & _)].
    + congruence.
    + split; [now apply passes_name_checks_valid | assumption].
  - intros [Hv Hu]. unfold create, bind.
    rewrite (validateChannelName_accepts _ _ Hv Hu). do 2 eexists. reflexivity.
  - intros e this' Hcreate.
    destruct (create_cases name this) as [[e' He]|(_ & _ & Hok)]; congruence.
Qed.

(** X2. A failed [create] reports the first rule the name breaks, in the
    order empty, longer than 15, a character outside the class, whatever else
    is wrong with the name, and writes nothing; [changeName] on a live id
    reports the same. *)
Theorem create_reports_first_broken_rule (name : jsstring) (this : Channels) :
  (name = [] -> create name this = (Throw NameEmpty, this))
  /\ ((15 < List.length name)%nat ->
      create name this = (Throw NameTooLong, this))
  /\ ((1 <= List.length name <= 15)%nat ->
      (exists u, In u name /\ ~ In u name_alphabet) ->
      create name this = (Throw NameNotAlphanumeric, this))
  /\ (forall id channel e,
        getChannel id this = Some channel ->
        create name this = (Throw e, this) ->
        changeName id name this = (Throw e, this)).
Proof.
  split; [|split; [|split]].
  - intros ->. reflexivity.
  - intros Hlong. unfold create, bind. rewrite validateChannelName_unfold.
    destruct (Nat.eqb_spec (List.length name) 0) as [E|_]; [lia|].
    destruct (Nat.ltb_spec 15 (List.length name)) as [_|E]; [|lia].
    reflexivity.
  - intros [Hlo Hhi] (u & Hu & Hout).
    unfold create, bind. rewrite validateChannelName_unfold.
    destruct (Nat.eqb_spec (List.length name) 0) as [E|_]; [lia|].
    destruct (Nat.ltb_spec 15 (List.length name)) as [E|_]; [lia|].
    assert (Hre : name_regex_test name = false).
    { destruct (name_regex_test name) eqn:E; [|reflexivity].
      unfold name_regex_test in E. rewrite forallb_forall in E.
      exfalso. apply Hout. apply in_name_class_iff. now apply E. }
    rewrite Hre. reflexivity.
  - intros id channel e Hget He. unfold getChannel in Hget.
    unfold changeName, bind, read. rewrite Hget. unfold bind.
    unfold create, bind in He.
    destruct (validateChannelName name this) as [[[]|e'] this'] eqn:Hv.
    + simpl in He. discriminate.
    + rewrite validateChannelName_unfold in Hv.
      injection Hv as Hv <-. injection He as <-. reflexivity.
Qed.

Lemma create_reports_first_broken_rule_witness :
  create (lit "") channels_at_start = (Throw NameEmpty, channels_at_start)
  /\ create (lit "0123456789abcdef") channels_at_start
     = (Throw NameTooLong, channels_at_start)
  /\ create (lit "a b") channels_at_start
     = (Throw NameNotAlphanumeric, channels_at_start)
  /\ changeName (Int 1) (lit "a b") channels_at_start
     = (Throw NameNotAlphanumeric, channels_at_start).
Proof.
  pose proof (create_reports_first_broken_rule (lit "") channels_at_start) as H0.
  pose proof (create_reports_first_broken_rule (lit "0123456789abcdef")
                channels_at_start) as H1.
  pose proof (create_reports_first_broken_rule (lit "a b") channels_at_start)
    as H2.
  assert (Hbad : exists u, In u (lit "a b") /\ ~ In u name_alphabet).
  { exists 32%N. split; [right; left; reflexivity|].
    intros Hin. apply in_name_class_iff in Hin. discriminate. }
  assert (Hlen : (1 <= List.length (lit "a b") <= 15)%nat) by (simpl; lia).
  split; [exact (proj1 H0 eq_refl)|].
  split; [apply (proj1 (proj2 H1)); simpl; lia|].
  split; [exact (proj1 (proj2 (proj2 H2)) Hlen Hbad)|].
  exact (proj2 (proj2 (proj2 H2)) (Int 1)
           (Channel.mk (Int 1) (lit "general") []) NameNotAlphanumeric eq_refl
           (proj1 (proj2 (proj2 H2)) Hlen Hbad)).
Defined.

(** ** The registry along a run *)

Section MapKeys.
Context {V : Type}.
Implicit Types (m : JsMap.t V) (k : number) (v : V).

Lemma keys_set_absent k v m :
  JsMap.get k m = None -> JsMap.keys (JsMap.set k v m) = JsMap.keys m ++ [k].
Proof.
  intros H. rewrite (set_absent _ _ _ H). unfold JsMap.keys.
  now rewrite map_app.
Qed.

Lemma NoDup_keys_set k v m :
  NoDup (JsMap.keys m) -> NoDup (JsMap.keys (JsMap.set k v m)).
Proof.
  intros Hnd. destruct (JsMap.get k m) as [v0|] eqn:E.
  - now rewrite (keys_set_present _ _ _ _ E).
  - rewrite (keys_set_absent _ _ _ E).
    apply NoDup_app; [assumption|repeat constructor; intros []|].
    intros x Hx [<-|[]]. now apply get_None_keys in E.
Qed.

Lemma NoDup_keys_delete k m :
  NoDup (JsMap.keys m) -> NoDup (JsMap.keys (JsMap.delete k m)).
Proof.
  induction m as [|[k0 v0] m IH]; simpl; intros Hnd; [assumption|].
  inversion Hnd as [|? ? Hnotin Hnd']; subst.
  destruct (SameValueZero k0 k); simpl; [now apply IH|].
  constructor; [|now apply IH].
  intros Hin. apply Hnotin. unfold JsMap.keys in *.
  apply in_map_iff in Hin as ([k' v'] & Hk & Hin). simpl in Hk. subst k'.
  apply In_delete in Hin. apply in_map_iff. now exists (k0, v').
Qed.

Lemma set_set k v v' m :
  JsMap.set k v (JsMap.set k v' m) = JsMap.set k v m.
Proof.
  induction m as [|[k0 v0] m IH]; simpl.
  - now rewrite SameValueZero_refl.
  - destruct (SameValueZero k0 k) eqn:E; simpl; rewrite E; [reflexivity|].
    now rewrite IH.
Qed.

Lemma set_same k v m : JsMap.get k m = Some v -> JsMap.set k v m = m.
Proof.
  induction m as [|[k0 v0] m IH]; simpl; [discriminate|].
  destruct (SameValueZero k0 k); intros H.
  - congruence.
  - now rewrite IH.
Qed.

Lemma delete_set_absent k v m :
  JsMap.get k m = None -> JsMap.delete k (JsMap.set k v m) = m.
Proof.
  intros H. rewrite (set_absent _ _ _ H). unfold JsMap.delete.
  rewrite filter_app. simpl. rewrite SameValueZero_refl. simpl.
  rewrite app_nil_r. now apply delete_absent.
Qed.
End MapKeys.

Lemma step_keys_distinct (op : Op) (this : Channels) :
  NoDup (JsMap.keys (channels this)) ->
  NoDup (JsMap.keys (channels (snd (step op this)))).
Proof.
  intros Hnd. destruct op as [name|id name|id|id message]; simpl.
  - destruct (create_cases name this) as [[e ->]|(_ & _ & ->)]; simpl;
      [assumption | now apply NoDup_keys_set].
  - destruct (changeName_cases id name this)
      as [[e ->]|(channel & _ & _ & _ & ->)]; simpl;
      [assumption | now apply NoDup_keys_set].
  - now apply NoDup_keys_delete.
  - destruct (getChannel id this); simpl; [now apply NoDup_keys_set | assumption].
Qed.

Lemma run_keys_distinct (ops : list Op) (this : Channels) :
  NoDup (JsMap.keys (channels this)) ->
  NoDup (JsMap.keys (channels (snd (run ops this)))).
Proof.
  revert this. induction ops as [|op ops IH]; intros this Hnd; simpl; [assumption|].
  pose proof (step_keys_distinct op this Hnd) as H1.
  destruct (step op this) as [ids this1]. simpl in H1.
  pose proof (IH this1 H1) as H2.
  destruct (run ops this1) as [ids' this2]. exact H2.
Qed.

Lemma reachable_keys_distinct (this : Channels) :
  reachable this -> NoDup (JsMap.keys (channels this)).
Proof.
  intros [ops <-]. unfold lifetime. apply run_keys_distinct. constructor.
Qed.

(** In a reachable registry each channel is bound under its own id. *)
Lemma reachable_key_is_id (this : Channels) (k : number) (channel : Channel.t) :
  reachable this -> In (k, channel) (channels this) -> Channel.id channel = k.
Proof.
  intros Hreach Hin. apply reachable_ok in Hreach.
  destruct (keys_issued _ Hreach _ _ Hin) as (z & -> & Hid & _). exact Hid.
Qed.

(** While the counter is exact, the id it holds is bound to nothing. *)
Lemma next_id_unbound (this : Channels) :
  registry_ok this -> nextChannelId this < two53 ->
  getChannel (Int (nextChannelId this)) this = None.
Proof.
  intros Hok Hlt. unfold getChannel. apply get_None_keys. intros Hin.
  unfold JsMap.keys in Hin. apply in_map_iff in Hin as ([k c] & Hk & Hin).
  simpl in Hk. subst k.
  destruct (keys_issued _ Hok _ _ Hin) as (z & Hz & _ & _ & Hbound).
  injection Hz as <-. lia.
Qed.

(** X3. In every registry a process can reach: the live channels bear
    pairwise distinct names, each of 1 to 15 characters of the class; every
    channel is bound under its own id, an integer from 1 up that the counter
    has passed (or the counter stands at 2^53); no id is bound twice; and the
    counter is between 1 and 2^53. *)
Theorem reachable_registry_invariant (this : Channels) :
  reachable this ->
  NoDup (map Channel.name (getAllChannels this))
  /\ Forall (fun channel => valid_name (Channel.name channel)) (getAllChannels this)
  /\ NoDup (map Channel.id (getAllChannels this))
  /\ (forall id channel,
        getChannel id this = Some channel ->
        Channel.id channel = id
        /\ exists z, id = Int z /\ 1 <= z
                     /\ (z < nextChannelId this \/ nextChannelId this = two53))
  /\ 1 <= nextChannelId this <= two53.
Proof.
  intros Hreach. pose proof (reachable_ok _ Hreach) as [Hc Hk Hn Hd].
  split; [exact Hd|]. split; [|split; [|split; [|exact Hc]]].
  - apply Forall_forall. intros channel Hin.
    apply passes_name_checks_valid. now apply Hn.
  - pose proof (reachable_keys_distinct _ Hreach) as Hnd.
    assert (Heq : map Channel.id (getAllChannels this) = JsMap.keys (channels this)).
    { unfold getAllChannels, JsMap.values, JsMap.keys. rewrite map_map.
      apply map_ext_in. intros [k c] Hin. simpl.
      now apply (reachable_key_is_id this). }
    now rewrite Heq.
  - intros id channel Hget. apply get_In_entry in Hget.
    destruct (Hk _ _ Hget) as (z & -> & Hid & Hz & Hb).
    split; [exact Hid|]. exists z. auto.
Qed.

Lemma reachable_example_registry : reachable example_registry.
Proof. exists [OpPush (Int 1) example_message]. reflexivity. Defined.

Lemma reachable_channels_at_start : reachable channels_at_start.
Proof. exists []. reflexivity. Defined.

Lemma reachable_registry_invariant_witness :
  NoDup (map Channel.name (getAllChannels example_registry))
  /\ Forall (fun channel => valid_name (Channel.name channel))
       (getAllChannels example_registry)
  /\ NoDup (map Channel.id (getAllChannels example_registry)).
Proof.
  pose proof (reachable_registry_invariant example_registry
                reachable_example_registry) as H.
  split; [exact (proj1 H)|].
  split; [exact (proj1 (proj2 H)) | exact (proj1 (proj2 (proj2 H)))].
Defined.

(** ** The listing *)

Lemma values_delete_by_id (id : number) (m : JsMap.t Channel.t) :
  (forall k channel, In (k, channel) m -> Channel.id channel = k) ->
  JsMap.values (JsMap.delete id m)
  = filter (fun channel => negb (SameValueZero (Channel.id channel) id))
      (JsMap.values m).
Proof.
  induction m as [|[k c] m IH]; simpl; intros Hid; [reflexivity|].
  rewrite (Hid k c) by now left.
  destruct (SameValueZero k id); simpl; rewrite IH; auto;
    intros k' c' Hin; apply Hid; now right.
Qed.

Lemma entry_unique {V : Type} (m : JsMap.t V) (k : number) (a b : V) :
  NoDup (JsMap.keys m) -> In (k, a) m -> In (k, b) m -> a = b.
Proof.
  induction m as [|[k0 v0] m IH]; simpl; intros Hnd Ha Hb; [destruct Ha|].
  inversion Hnd as [|? ? Hnotin Hnd']; subst.
  assert (Hkey : forall v, In (k, v) m -> In k (JsMap.keys m)).
  { intros v Hv. unfold JsMap.keys. apply in_map_iff. now exists (k, v). }
  destruct Ha as [Ha|Ha], Hb as [Hb|Hb].
  - congruence.
  - injection Ha as Hk _. subst k0. exfalso. apply Hnotin. eauto.
  - injection Hb as Hk _. subst k0. exfalso. apply Hnotin. eauto.
  - now apply IH.
Qed.

Lemma values_set_by_id (id : number) (old new : Channel.t)
    (m : JsMap.t Channel.t) :
  (forall k channel, In (k, channel) m -> Channel.id channel = k) ->
  NoDup (JsMap.keys m) ->
  JsMap.get id m = Some old ->
  JsMap.values (JsMap.set id new m)
  = map (fun channel =>
           if SameValueZero (Channel.id channel) id then new else channel)
      (JsMap.values m).
Proof.
  induction m as [|[k c] m IH]; simpl; intros Hid Hnd Hget; [discriminate|].
  inversion Hnd as [|? ? Hnotin Hnd']; subst.
  rewrite (Hid k c) by now left.
  destruct (SameValueZero k id) eqn:E; simpl.
  - f_equal. apply SameValueZero_eq in E. subst k.
    rewrite <- (map_id (JsMap.values m)) at 1.
    apply map_ext_in. intros c' Hc'. unfold JsMap.values in Hc'.
    apply in_map_iff in Hc' as ([k' c''] & Heq & Hin). simpl in Heq. subst c''.
    rewrite (Hid k' c') by now right.
    destruct (SameValueZero k' id) eqn:E'; [|reflexivity].
    apply SameValueZero_eq in E'. subst k'. exfalso. apply Hnotin.
    unfold JsMap.keys. apply in_map_iff. now exists (id, c').
  - f_equal. apply IH; auto.
Qed.

(** X4. In a reachable registry, DELETE of a bound id answers 200 with an
    empty body; the listing that follows is the former listing, in its order,
    without the channel of that id, and no listed channel has that id. *)
Theorem deleted_channel_is_not_listed (Number : jsstring -> number)
    (idString : jsstring) (channel : Channel.t) (this : Channels) :
  reachable this ->
  getChannel (Number idString) this = Some channel ->
  let this' := snd (delete_channels Number idString this) in
  let listed :=
    filter (fun c => negb (SameValueZero (Channel.id c) (Number idString)))
      (getAllChannels this) in
  delete_channels Number idString this = (Return EmptyBody, this')
  /\ respond (fst (delete_channels Number idString this))
     = mkResponse 200 (Ok EmptyBody)
  /\ get_channels this' = (Return (ChannelListBody listed), this')
  /\ (forall c, In c listed -> Channel.id c <> Number idString)
  /\ getChannel (Number idString) this' = None
  /\ nextChannelId this' = nextChannelId this.
Proof.
  intros Hreach Hget this' listed. subst this' listed.
  unfold delete_channels. rewrite Hget. simpl.
  split; [reflexivity|]. split; [reflexivity|]. split; [|split; [|split]].
  - unfold get_channels, getAllChannels. simpl.
    rewrite values_delete_by_id; [reflexivity|].
    intros k c. now apply reachable_key_is_id.
  - intros c Hin. apply filter_In in Hin as [_ Hne].
    apply negb_true_iff in Hne. now apply SameValueZero_neq in Hne.
  - unfold getChannel. simpl. apply get_delete_same.
  - reflexivity.
Qed.

Lemma deleted_channel_is_not_listed_witness :
  delete_channels (fun _ => Int 1) (lit "1") example_registry
  = (Return EmptyBody,
     mkChannels [(Int 2, Channel.mk (Int 2) (lit "random") [])] 3)
  /\ get_channels (mkChannels [(Int 2, Channel.mk (Int 2) (lit "random") [])] 3)
     = (Return (ChannelListBody [Channel.mk (Int 2) (lit "random") []]),
        mkChannels [(Int 2, Channel.mk (Int 2) (lit "random") [])] 3).
Proof.
  pose proof (deleted_channel_is_not_listed (fun _ => Int 1) (lit "1")
                (Channel.mk (Int 1) (lit "general") [example_message])
                example_registry reachable_example_registry eq_refl) as H.
  split; [exact (proj1 H) | exact (proj1 (proj2 (proj2 H)))].
Defined.

(** X5. In a reachable registry whose counter is below 2^53, POST /channels
    with a valid name that no live channel bears answers 200 with the new
    channel, whose id no live channel has, and the listing that follows is the
    former listing with the new channel at its end. *)
Theorem created_channel_is_listed_last (name : jsstring) (this : Channels) :
  reachable this ->
  nextChannelId this < two53 ->
  valid_name name ->
  unused_name name this ->
  let channel := Channel.mk (Int (nextChannelId this)) name [] in
  let this' := snd (post_channels (Some (JString name)) this) in
  post_channels (Some (JString name)) this = (Return (ChannelBody channel), this')
  /\ get_channels this'
     = (Return (ChannelListBody (getAllChannels this ++ [channel])), this')
  /\ (forall c, In c (getAllChannels this) -> Channel.id c <> Channel.id channel)
  /\ nextChannelId this' = nextChannelId this + 1.
Proof.
  intros Hreach Hlt Hv Hu channel this'. subst channel this'.
  pose proof (reachable_ok _ Hreach) as Hok.
  pose proof (next_id_unbound _ Hok Hlt) as Hfresh. unfold getChannel in Hfresh.
  unfold post_channels. simpl. unfold create, bind.
  rewrite (validateChannelName_accepts _ _ Hv Hu). simpl.
  split; [reflexivity|]. split; [|split].
  - unfold get_channels, getAllChannels. simpl.
    rewrite (set_absent _ _ _ Hfresh). unfold JsMap.values.
    now rewrite map_app.
  - intros c Hin Heq. simpl in Heq. unfold getAllChannels, JsMap.values in Hin.
    apply in_map_iff in Hin as ([k c'] & Hc & Hin). simpl in Hc. subst c'.
    destruct (keys_issued _ Hok _ _ Hin) as (z & _ & Hid & _ & Hb).
    rewrite Hid in Heq. injection Heq as ->. lia.
  - now apply js_succ_exact.
Qed.

Lemma created_channel_is_listed_last_witness :
  post_channels (Some (JString (lit "dev"))) channels_at_start
  = (Return (ChannelBody (Channel.mk (Int 3) (lit "dev") [])),
     snd (post_channels (Some (JString (lit "dev"))) channels_at_start))
  /\ get_channels (snd (post_channels (Some (JString (lit "dev"))) channels_at_start))
     = (Return
          (ChannelListBody
             [Channel.mk (Int 1) (lit "general") [];
              Channel.mk (Int 2) (lit "random") [];
              Channel.mk (Int 3) (lit "dev") []]),
        snd (post_channels (Some (JString (lit "dev"))) channels_at_start)).
Proof.
  assert (Hlt : nextChannelId channels_at_start < two53)
    by (vm_compute; reflexivity).
  assert (Hv : valid_name (lit "dev")) by prove_valid_name.
  assert (Hu : unused_name (lit "dev") channels_at_start) by prove_unused_name.
  pose proof (created_channel_is_listed_last (lit "dev") channels_at_start
                reachable_channels_at_start Hlt Hv Hu) as H.
  split; [exact (proj1 H) | exact (proj1 (proj2 H))].
Defined.

(** X6. In a reachable registry, a successful [changeName] leaves the
    listing in its order: every channel is where it was, and the one of the
    given id differs only in its name. *)
Theorem changeName_keeps_listing_order (id : number) (newName : jsstring)
    (channel : Channel.t) (this : Channels) :
  reachable this ->
  getChannel id this = Some channel ->
  valid_name newName ->
  unused_name newName this ->
  getAllChannels (snd (changeName id newName this))
  = map (fun c =>
           if SameValueZero (Channel.id c) id
           then Channel.mk (Channel.id c) newName (Channel.messages c)
           else c)
      (getAllChannels this).
Proof.
  intros Hreach Hget Hv Hu. unfold getChannel in Hget.
  unfold changeName, bind, read. rewrite Hget. unfold bind.
  rewrite (validateChannelName_accepts _ _ Hv Hu). simpl.
  unfold getAllChannels. simpl.
  rewrite (values_set_by_id id channel).
  - apply map_ext_in. intros c Hc.
    destruct (SameValueZero (Channel.id c) id) eqn:E; [|reflexivity].
    apply SameValueZero_eq in E. unfold JsMap.values in Hc.
    apply in_map_iff in Hc as ([k c'] & Heq & Hin). simpl in Heq. subst c'.
    pose proof (reachable_key_is_id _ _ _ Hreach Hin) as Hk.
    pose proof (get_In_entry _ _ _ Hget) as Hin'.
    assert (c = channel); [|now subst].
    pose proof (reachable_keys_distinct _ Hreach) as Hnd.
    rewrite <- Hk, E in Hin.
    exact (entry_unique _ _ _ _ Hnd Hin Hin').
  - intros k c. now apply reachable_key_is_id.
  - now apply reachable_keys_distinct.
  - exact Hget.
Qed.

Lemma changeName_keeps_listing_order_witness :
  getAllChannels (snd (changeName (Int 1) (lit "lobby") example_registry))
  = [Channel.mk (Int 1) (lit "lobby") [example_message];
     Channel.mk (Int 2) (lit "random") []].
Proof.
  assert (Hv : valid_name (lit "lobby")) by prove_valid_name.
  assert (Hu : unused_name (lit "lobby") example_registry) by prove_unused_name.
  exact (changeName_keeps_listing_order (Int 1) (lit "lobby")
           (Channel.mk (Int 1) (lit "general") [example_message])
           example_registry reachable_example_registry eq_refl Hv Hu).
Defined.

(** ** Round trips *)

Lemma validateChannelName_accepts_checked (name : jsstring) (this : Channels) :
  passes_name_checks name = true -> unused_name name this ->
  validateChannelName name this = (Return tt, this).
Proof.
  intros Hchk Hu. apply validateChannelName_accepts; [|assumption].
  now apply passes_name_checks_valid.
Qed.

(** Once a key is bound to a value with another [f]-image, no stored value
    has the image of the value it was bound to. *)
Lemma set_releases {V B : Type} (f : V -> B) (k : number) (v v0 : V)
    (m : JsMap.t V) :
  NoDup (map f (JsMap.values m)) ->
  JsMap.get k m = Some v0 ->
  f v <> f v0 ->
  forall x, In x (JsMap.values (JsMap.set k v m)) -> f x <> f v0.
Proof.
  induction m as [|[k0 c0] m IH]; simpl; intros Hnd Hget Hne x Hx; [discriminate|].
  inversion Hnd as [|? ? Hnotin Hnd']; subst.
  destruct (SameValueZero k0 k) eqn:E; simpl in Hx.
  - injection Hget as <-. destruct Hx as [<-|Hx]; [assumption|].
    intros Hf. apply Hnotin. apply in_map_iff. now exists x.
  - destruct Hx as [<-|Hx].
    + intros Hf. apply Hnotin. apply in_map_iff. exists v0. split; [congruence|].
      eapply get_In_values. exact Hget.
    + now apply IH.
Qed.

(** X7. In a reachable registry, renaming a channel to a valid unused name
    and then back to the name it had succeeds both times and leaves the
    registry exactly as it was: the same records in the same order. *)
Theorem rename_and_back (id : number) (newName : jsstring)
    (channel : Channel.t) (this : Channels) :
  reachable this ->
  getChannel id this = Some channel ->
  valid_name newName ->
  unused_name newName this ->
  let renamed := Channel.mk (Channel.id channel) newName (Channel.messages channel) in
  exists this1,
    changeName id newName this = (Return renamed, this1)
    /\ changeName id (Channel.name channel) this1 = (Return channel, this).
Proof.
  intros Hreach Hget Hv Hu renamed. unfold getChannel in Hget.
  pose proof (reachable_ok _ Hreach) as Hok.
  eexists. split.
  - unfold changeName, bind, read. rewrite Hget. unfold bind.
    rewrite (validateChannelName_accepts _ _ Hv Hu). reflexivity.
  - unfold changeName, bind, read. simpl. rewrite get_set_same. unfold bind.
    rewrite validateChannelName_accepts_checked.
    + destruct channel as [cid cname cmessages].
      cbn [Channel.with_name Channel.id Channel.name Channel.messages
           channels_set ret channels nextChannelId].
      rewrite set_set.
      change (Channel.with_name
                (Channel.with_name (Channel.mk cid cname cmessages) newName) cname)
        with (Channel.mk cid cname cmessages).
      rewrite (set_same id _ _ Hget). now destruct this.
    + apply (names_checked _ Hok). eapply get_In_values. exact Hget.
    + intros x Hx. unfold getAllChannels in Hx. simpl in Hx.
      eapply (set_releases Channel.name); try eassumption.
      * apply (names_distinct _ Hok).
      * simpl. intros Heq. apply (Hu channel); [|congruence].
        eapply get_In_values. exact Hget.
Qed.

Lemma rename_and_back_witness :
  exists this1,
    changeName (Int 1) (lit "lobby") example_registry
    = (Return (Channel.mk (Int 1) (lit "lobby") [example_message]), this1)
    /\ changeName (Int 1) (lit "general") this1
       = (Return (Channel.mk (Int 1) (lit "general") [example_message]),
          example_registry).
Proof.
  assert (Hv : valid_name (lit "lobby")) by prove_valid_name.
  assert (Hu : unused_name (lit "lobby") example_registry) by prove_unused_name.
  exact (rename_and_back (Int 1) (lit "lobby")
           (Channel.mk (Int 1) (lit "general") [example_message])
           example_registry reachable_example_registry eq_refl Hv Hu).
Defined.

(** X8. In a reachable registry whose counter is below 2^53, creating a
    channel and deleting it again restores every binding and the order of the
    listing; only the counter has moved on by one, so the id is spent. *)
Theorem create_then_delete (name : jsstring) (this : Channels) :
  reachable this ->
  nextChannelId this < two53 ->
  valid_name name ->
  unused_name name this ->
  exists channel this1,
    create name this = (Return channel, this1)
    /\ deleteChannel (Channel.id channel) this1
       = (Return tt, mkChannels (channels this) (nextChannelId this + 1)).
Proof.
  intros Hreach Hlt Hv Hu.
  pose proof (next_id_unbound _ (reachable_ok _ Hreach) Hlt) as Hfresh.
  unfold getChannel in Hfresh.
  do 2 eexists. split.
  - unfold create, bind. rewrite (validateChannelName_accepts _ _ Hv Hu).
    reflexivity.
  - unfold deleteChannel. simpl.
    rewrite (delete_set_absent _ _ _ Hfresh), (js_succ_exact _ Hlt). reflexivity.
Qed.

Lemma create_then_delete_witness :
  exists channel this1,
    create (lit "dev") example_registry = (Return channel, this1)
    /\ deleteChannel (Channel.id channel) this1
       = (Return tt, mkChannels (channels example_registry) 4).
Proof.
  assert (Hlt : nextChannelId example_registry < two53)
    by (vm_compute; reflexivity).
  assert (Hv : valid_name (lit "dev")) by prove_valid_name.
  assert (Hu : unused_name (lit "dev") example_registry) by prove_unused_name.
  exact (create_then_delete (lit "dev") example_registry
           reachable_example_registry Hlt Hv Hu).
Defined.

(** ** Message histories *)

(** Where a binding of the registry after a step comes from: it was there
    before, with the same id and messages that the new ones extend, or it is
    the binding of the id the counter held. *)
Lemma step_origin (op : Op) (this : Channels) (id : number) (after : Channel.t) :
  getChannel id (snd (step op this)) = Some after ->
  (exists before more,
      getChannel id this = Some before
      /\ Channel.id after = Channel.id before
      /\ Channel.messages after = Channel.messages before ++ more)
  \/ id = Int (nextChannelId this).
Proof.
  unfold getChannel.
  assert (Hsame : forall c, JsMap.get id (channels this) = Some c ->
            exists before more, JsMap.get id (channels this) = Some before
              /\ Channel.id c = Channel.id before
              /\ Channel.messages c = Channel.messages before ++ more).
  { intros c Hc. exists c, []. now rewrite app_nil_r. }
  destruct op as [name|id0 name|id0|id0 message]; simpl.
  - destruct (create_cases name this) as [[e ->]|(_ & _ & ->)]; simpl.
    + intros H. left. auto.
    + destruct (SameValueZero (Int (nextChannelId this)) id) eqn:E.
      * apply SameValueZero_eq in E. now right.
      * apply SameValueZero_neq in E. rewrite get_set_other by assumption.
        intros H. left. auto.
  - destruct (changeName_cases id0 name this)
      as [[e ->]|(channel & Hget & _ & _ & ->)]; simpl.
    + intros H. left. auto.
    + unfold getChannel in Hget.
      destruct (SameValueZero id0 id) eqn:E.
      * apply SameValueZero_eq in E. subst id0. rewrite get_set_same.
        intros H. injection H as <-. left. exists channel, []. simpl.
        now rewrite app_nil_r.
      * apply SameValueZero_neq in E. rewrite get_set_other by assumption.
        intros H. left. auto.
  - destruct (SameValueZero id0 id) eqn:E.
    + apply SameValueZero_eq in E. subst id0. rewrite get_delete_same. discriminate.
    + apply SameValueZero_neq in E. rewrite get_delete_other by assumption.
      intros H. left. auto.
  - unfold getChannel. destruct (JsMap.get id0 (channels this)) as [channel|] eqn:Hget;
      simpl; [|intros H; left; auto].
    destruct (SameValueZero id0 id) eqn:E.
    + apply SameValueZero_eq in E. subst id0. rewrite get_set_same.
      intros H. injection H as <-. left. exists channel, [message]. auto.
    + apply SameValueZero_neq in E. rewrite get_set_other by assumption.
      intros H. left. auto.
Qed.

Lemma run_origin (ops : list Op) (this : Channels) (id : number)
    (after : Channel.t) :
  getChannel id (snd (run ops this)) = Some after ->
  (exists before more,
      getChannel id this = Some before
      /\ Channel.id after = Channel.id before
      /\ Channel.messages after = Channel.messages before ++ more)
  \/ exists z, id = Int z /\ nextChannelId this <= z.
Proof.
  revert this. induction ops as [|op ops IH]; intros this; simpl.
  - intros H. left. exists after, []. now rewrite app_nil_r.
  - pose proof (step_origin op this id) as Hstep.
    pose proof (step_issues op this) as Hs.
    destruct (step op this) as [ids this1]. simpl in Hstep, Hs.
    specialize (IH this1). destruct (run ops this1) as [ids' this2]. simpl in *.
    intros H. destruct (IH H) as [(mid & more & Hmid & Hid & Hmsg)|(z & -> & Hz)].
    + destruct (Hstep _ Hmid) as [(before & more' & Hb & Hid' & Hmsg') | ->].
      * left. exists before, (more' ++ more). split; [assumption|].
        split; [congruence|]. rewrite Hmsg, Hmsg'. now rewrite app_assoc.
      * right. exists (nextChannelId this). split; [reflexivity|lia].
    + right. exists z. split; [reflexivity|].
      pose proof (js_succ_ge (nextChannelId this)).
      destruct Hs as [[_ E]|[_ E]]; lia.
Qed.

(** X9. Message histories only grow. From a reachable registry, through
    any run of creations, renamings, deletions and accepted messages that
    leaves the counter below 2^53, a channel id that is bound before and after
    names the same channel, and its messages after the run are its messages
    before followed by the ones accepted since. *)
Theorem messages_are_append_only (ops : list Op) (this : Channels)
    (id : number) (before after : Channel.t) :
  reachable this ->
  nextChannelId (snd (run ops this)) < two53 ->
  getChannel id this = Some before ->
  getChannel id (snd (run ops this)) = Some after ->
  Channel.id after = Channel.id before
  /\ exists more, Channel.messages after = Channel.messages before ++ more.
Proof.
  intros Hreach Hlt Hbefore Hafter.
  destruct (run_origin _ _ _ _ Hafter)
    as [(before' & more & Hb & Hid & Hmsg)|(z & -> & Hz)].
  - rewrite Hbefore in Hb. injection Hb as <-. eauto.
  - exfalso. pose proof (run_counter_mono ops this) as Hmono.
    apply get_In_entry in Hbefore.
    destruct (keys_issued _ (reachable_ok _ Hreach) _ _ Hbefore)
      as (z' & Hz' & _ & _ & Hb).
    injection Hz' as <-. lia.
Qed.

Lemma messages_are_append_only_witness :
  Channel.id (Channel.mk (Int 1) (lit "lobby")
                [example_message; Message.mk (lit "bo") (lit "yo")])
  = Int 1
  /\ exists more,
       [example_message; Message.mk (lit "bo") (lit "yo")]
       = [example_message] ++ more.
Proof.
  assert (Hlt : nextChannelId
                  (snd (run [OpChangeName (Int 1) (lit "lobby");
                             OpCreate (lit "dev");
                             OpPush (Int 1) (Message.mk (lit "bo") (lit "yo"));
                             OpDelete (Int 2)]
                          example_registry)) < two53)
    by (vm_compute; reflexivity).
  exact (messages_are_append_only
           [OpChangeName (Int 1) (lit "lobby"); OpCreate (lit "dev");
            OpPush (Int 1) (Message.mk (lit "bo") (lit "yo")); OpDelete (Int 2)]
           example_registry (Int 1)
           (Channel.mk (Int 1) (lit "general") [example_message])
           (Channel.mk (Int 1) (lit "lobby")
              [example_message; Message.mk (lit "bo") (lit "yo")])
           reachable_example_registry Hlt eq_refl eq_refl).
Defined.

(** ** The HTTP routes *)




(** X11. PATCH /channels/:id on a bound id: without a [name] in the body it
    answers 400 'name parameter is missing'; with a [name] that is not a
    string, 400 'name parameter is not a string value'; with a valid name that
    no live channel bears, 200 with the renamed channel, which is then bound
    to the id; with any other string, 400 with the message of the validation
    error. In the three 400 cases the registry is as it was. *)
Theorem patch_channels_on_bound_id (Number : jsstring -> number)
    (idString : jsstring) (channel : Channel.t) (this : Channels) :
  getChannel (Number idString) this = Some channel ->
  patch_channels Number idString None this
  = (Throw (mkHttpError 400 (MessageOf NameParameterMissing)), this)
  /\ (forall value, (forall s, value <> JString s) ->
        patch_channels Number idString (Some value) this
        = (Throw (mkHttpError 400 (MessageOf NameParameterNotString)), this))
  /\ (forall s, valid_name s -> unused_name s this ->
        let renamed := Channel.mk (Channel.id channel) s (Channel.messages channel) in
        exists this',
          patch_channels Number idString (Some (JString s)) this
          = (Return (ChannelBody renamed), this')
          /\ getChannel (Number idString) this' = Some renamed)
  /\ (forall s, ~ (valid_name s /\ unused_name s this) ->
        exists e,
          patch_channels Number idString (Some (JString s)) this
          = (Throw (mkHttpError 400 (MessageOf e)), this)
          /\ kind_of e = ValidationError).
Proof.
  intros Hget. unfold patch_channels. rewrite Hget.
  split; [reflexivity|]. split; [|split].
  - intros value Hvalue. destruct value; try reflexivity.
    exfalso. now apply (Hvalue s).
  - intros s Hv Hu. simpl. unfold getChannel in Hget.
    unfold changeName, bind, read. rewrite Hget. unfold bind.
    rewrite (validateChannelName_accepts _ _ Hv Hu). simpl.
    eexists. split; [reflexivity|]. unfold getChannel. simpl. apply get_set_same.
  - intros s Hbad. simpl.
    destruct (changeName_cases (Number idString) s this)
      as [[e He]|(c & _ & Hchk & Hu & _)].
    + rewrite He. exists e. split; [reflexivity|].
      unfold getChannel in Hget.
      unfold changeName, bind, read in He. rewrite Hget in He. unfold bind in He.
      rewrite validateChannelName_unfold in He.
      destruct (Nat.eqb (List.length s) 0); [now injection He as <-|].
      destruct (Nat.ltb 15 (List.length s)); [now injection He as <-|].
      destruct (negb (name_regex_test s)); [now injection He as <-|].
      destruct (existsb _ _); [now injection He as <-|]. discriminate.
    + exfalso. apply Hbad. split; [now apply passes_name_checks_valid|assumption].
Qed.

Lemma patch_channels_on_bound_id_witness :
  patch_channels (fun _ => Int 1) (lit "1") None example_registry
  = (Throw (mkHttpError 400 (MessageOf NameParameterMissing)), example_registry)
  /\ patch_channels (fun _ => Int 1) (lit "1") (Some (JNumber (Int 5)))
       example_registry
     = (Throw (mkHttpError 400 (MessageOf NameParameterNotString)),
        example_registry)
  /\ (exists this',
        patch_channels (fun _ => Int 1) (lit "1") (Some (JString (lit "lobby")))
          example_registry
        = (Return (ChannelBody
                     (Channel.mk (Int 1) (lit "lobby") [example_message])), this')
        /\ getChannel (Int 1) this'
           = Some (Channel.mk (Int 1) (lit "lobby") [example_message])).
Proof.
  pose proof (patch_channels_on_bound_id (fun _ => Int 1) (lit "1")
                (Channel.mk (Int 1) (lit "general") [example_message])
                example_registry eq_refl) as H.
  split; [exact (proj1 H)|]. split.
  - apply (proj1 (proj2 H)). intros s. discriminate.
  - assert (Hv : valid_name (lit "lobby")) by prove_valid_name.
    assert (Hu : unused_name (lit "lobby") example_registry)
      by prove_unused_name.
    exact (proj1 (proj2 (proj2 H)) (lit "lobby") Hv Hu).
Defined.

(** ** The message route *)

(** X12. [isNewMessage] holds exactly of the objects whose [type] is the
    string "message", whose [channelId] is a number and whose [userName] and
    [text] are strings, whatever other properties they have; it fails on
    [null], on arrays and on every value that is not an object. *)
Theorem isNewMessage_iff_shape (value : json) :
  (isNewMessage value = true
   <-> exists channelId userName text,
         message_shape value channelId userName text)
  /\ ((forall props, value <> JObject props) -> isNewMessage value = false).
Proof.
  split; [split|].
  - intros H. apply isNewMessage_message_shape in H. eauto.
  - intros (channelId & userName & text & H).
    now apply message_shape_isNewMessage in H.
  - intros Hvalue. destruct value; try reflexivity.
    exfalso. now apply (Hvalue props).
Qed.

(** X13. The error a rejected payload is answered with, by the first check
    it fails: the message of the parse error; 'Invalid message format' when
    the shape is missed; the [userName] message when [userName] is empty, even
    if [text] is empty too or the channel is unknown; the [text] message when
    only [text] is empty, even if the channel is unknown; 'Channel not found'
    when all fields are in order and no channel is bound to [channelId]. *)
Theorem rejected_message_error_text
    (JSON_parse : jsstring -> Completion jsstring json)
    (JSON_stringify : json -> jsstring)
    (server : option (list Client)) (websocket : Client) (rawData : jsstring)
    (this : Channels) :
  let answer message :=
    on_message JSON_parse JSON_stringify server websocket rawData this
    = ([SendTo websocket (JSON_stringify (error_object message))], this) in
  (forall e_message, JSON_parse rawData = Throw e_message -> answer e_message)
  /\ (forall data, JSON_parse rawData = Return data ->
        (forall channelId userName text,
            ~ message_shape data channelId userName text) ->
        answer (lit "Invalid message format"))
  /\ (forall data channelId text,
        JSON_parse rawData = Return data ->
        message_shape data channelId [] text ->
        answer (lit "Message userName must be longer than 0 character"))
  /\ (forall data channelId userName,
        JSON_parse rawData = Return data ->
        message_shape data channelId userName [] ->
        userName <> [] ->
        answer (lit "Message text must be longer than 0 character"))
  /\ (forall data channelId userName text,
        JSON_parse rawData = Return data ->
        message_shape data channelId userName text ->
        userName <> [] -> text <> [] ->
        getChannel channelId this = None ->
        answer (lit "Channel not found")).
Proof.
  intros answer. subst answer. cbv beta. unfold on_message, send_error.
  split; [|split; [|split; [|split]]].
  - intros e_message ->. reflexivity.
  - intros data -> Hnone.
    destruct (isNewMessage data) eqn:E; [|reflexivity].
    apply isNewMessage_message_shape in E. now apply Hnone in E.
  - intros data channelId text -> Hshape.
    apply message_shape_isNewMessage in Hshape as (-> & _ & -> & _).
    reflexivity.
  - intros data channelId userName -> Hshape Hname.
    apply message_shape_isNewMessage in Hshape as (-> & _ & -> & ->). simpl.
    destruct (Nat.ltb (List.length userName) 1) eqn:E; [|reflexivity].
    apply length_lt_1 in E. contradiction.
  - intros data channelId userName text -> Hshape Hname Htext Hget.
    apply message_shape_isNewMessage in Hshape as (-> & -> & -> & ->). simpl.
    destruct (Nat.ltb (List.length userName) 1) eqn:E1.
    { apply length_lt_1 in E1. contradiction. }
    destruct (Nat.ltb (List.length text) 1) eqn:E2.
    { apply length_lt_1 in E2. contradiction. }
    now rewrite Hget.
Qed.

(** X14. Whatever the payload, the message route never creates, renames,
    reorders or deletes a channel and never moves the counter: the keys, the
    ids and the names of the registry are as they were. Either the registry is
    untouched and one frame goes to the sender alone, or one channel has one
    more message at the end and the frames are the broadcast. *)
Theorem on_message_only_appends
    (JSON_parse : jsstring -> Completion jsstring json)
    (JSON_stringify : json -> jsstring)
    (server : option (list Client)) (websocket : Client) (rawData : jsstring)
    (this : Channels) :
  let sent :=
    fst (on_message JSON_parse JSON_stringify server websocket rawData this) in
  let this' :=
    snd (on_message JSON_parse JSON_stringify server websocket rawData this) in
  JsMap.keys (channels this') = JsMap.keys (channels this)
  /\ map Channel.id (getAllChannels this') = map Channel.id (getAllChannels this)
  /\ map Channel.name (getAllChannels this') = map Channel.name (getAllChannels this)
  /\ nextChannelId this' = nextChannelId this
  /\ ((this' = this
       /\ exists message,
            sent = [SendTo websocket (JSON_stringify (error_object message))])
      \/ (exists data channelId userName text channel,
            well_formed JSON_parse rawData this data channelId userName text channel
            /\ this' = messages_push channelId channel
                         (Message.mk userName text) this
            /\ sent = broadcast JSON_stringify server data)).
Proof.
  intros sent this'. subst sent this'.
  assert (Hcases :
    (exists message,
        on_message JSON_parse JSON_stringify server websocket rawData this
        = ([SendTo websocket (JSON_stringify (error_object message))], this))
    \/ (exists data channelId userName text channel,
          well_formed JSON_parse rawData this data channelId userName text channel)).
  { unfold on_message, send_error, well_formed.
    destruct (JSON_parse rawData) as [data|e]; [|eauto].
    destruct (isNewMessage data) eqn:Hnew; simpl; [|eauto].
    apply isNewMessage_message_shape in Hnew.
    destruct (Nat.ltb (List.length (string_field data (lit "userName"))) 1) eqn:E1;
      [eauto|].
    destruct (Nat.ltb (List.length (string_field data (lit "text"))) 1) eqn:E2;
      [eauto|].
    destruct (getChannel (number_field data (lit "channelId")) this)
      as [channel|] eqn:Hget; [|eauto].
    right. exists data. do 3 eexists. exists channel.
    split; [reflexivity|]. split; [exact Hnew|].
    split; [|split; [|exact Hget]].
    - intros H. apply length_lt_1 in H. congruence.
    - intros H. apply length_lt_1 in H. congruence. }
  destruct Hcases as [[message ->]|(data & channelId & userName & text & channel & Hwf)].
  - simpl. repeat split; eauto.
  - rewrite (on_message_accepts _ _ _ _ _ _ _ _ _ _ _ Hwf).
    destruct Hwf as (Hparse & Hshape & Hname & Htext & Hget).
    unfold getChannel in Hget. simpl.
    split; [eapply keys_set_present; exact Hget|].
    split; [now apply (map_values_set_same Channel.id _ _ channel)|].
    split; [now apply (map_values_set_same Channel.name _ _ channel)|].
    split; [reflexivity|]. right.
    exists data, channelId, userName, text, channel.
    split; [|split; reflexivity].
    unfold well_formed, getChannel. auto.
Qed.

(** X15. In a reachable registry whose counter is below 2^53, a payload
    that has the shape and non-empty fields is answered 'Channel not found',
    to the sender alone, whenever its [channelId] is not an integer that has
    been issued: a fraction, a number below 1, or a number the counter has not
    reached. *)
Theorem unissued_channelId_is_not_found
    (JSON_parse : jsstring -> Completion jsstring json)
    (JSON_stringify : json -> jsstring)
    (server : option (list Client)) (websocket : Client) (rawData : jsstring)
    (this : Channels) (data : json) (channelId : number)
    (userName text : jsstring) :
  reachable this ->
  nextChannelId this < two53 ->
  JSON_parse rawData = Return data ->
  message_shape data channelId userName text ->
  userName <> [] -> text <> [] ->
  (forall z, channelId = Int z -> z < 1 \/ nextChannelId this <= z) ->
  on_message JSON_parse JSON_stringify server websocket rawData this
  = ([SendTo websocket (JSON_stringify (error_object (lit "Channel not found")))],
     this).
Proof.
  intros Hreach Hlt Hparse Hshape Hname Htext Hid.
  assert (Hnone : getChannel channelId this = None).
  { unfold getChannel. apply get_None_keys. intros Hin.
    unfold JsMap.keys in Hin. apply in_map_iff in Hin as ([k c] & Hk & Hin).
    simpl in Hk. subst k.
    destruct (keys_issued _ (reachable_ok _ Hreach) _ _ Hin)
      as (z & Hz & _ & Hlo & Hb).
    destruct (Hid z Hz); lia. }
  apply message_shape_isNewMessage in Hshape as (Hnew & Hcid & Hu & Ht).
  unfold on_message, send_error. rewrite Hparse, Hnew, Hcid, Hu, Ht, Hnone. simpl.
  destruct (Nat.ltb (List.length userName) 1) eqn:E1.
  { apply length_lt_1 in E1. contradiction. }
  destruct (Nat.ltb (List.length text) 1) eqn:E2.
  { apply length_lt_1 in E2. contradiction. }
  reflexivity.
Qed.

Lemma rejected_message_error_text_witness :
  on_message
    (fun _ => Return (JObject [(lit "type", JString (lit "message"));
                               (lit "channelId", JNumber (Int 9));
                               (lit "userName", JString []);
                               (lit "text", JString [])]))
    example_stringify (Some [4; 5; 6]%nat) 5%nat example_raw example_registry
  = ([SendTo 5%nat
        (example_stringify
           (error_object (lit "Message userName must be longer than 0 character")))],
     example_registry)
  /\ on_message example_parse example_stringify (Some [4; 5; 6]%nat) 5%nat
       (lit "{") example_registry
     = ([SendTo 5%nat (example_stringify (error_object (lit "Unexpected token")))],
        example_registry).
Proof.
  split.
  - apply (proj1 (proj2 (proj2
             (rejected_message_error_text
                (fun _ => Return (JObject [(lit "type", JString (lit "message"));
                                           (lit "channelId", JNumber (Int 9));
                                           (lit "userName", JString []);
                                           (lit "text", JString [])]))
                example_stringify (Some [4; 5; 6]%nat) 5%nat example_raw
                example_registry)))
           (JObject [(lit "type", JString (lit "message"));
                     (lit "channelId", JNumber (Int 9));
                     (lit "userName", JString []);
                     (lit "text", JString [])])
           (Int 9) []); [reflexivity|].
    repeat split.
  - apply (proj1 (rejected_message_error_text example_parse example_stringify
                    (Some [4; 5; 6]%nat) 5%nat (lit "{") example_registry)).
    reflexivity.
Defined.

Lemma unissued_channelId_is_not_found_witness :
  on_message
    (fun _ => Return (JObject [(lit "type", JString (lit "message"));
                               (lit "channelId", JNumber (Frac 3 1));
                               (lit "userName", JString (lit "al"));
                               (lit "text", JString (lit "hi"))]))
    example_stringify (Some [4; 5; 6]%nat) 5%nat example_raw example_registry
  = ([SendTo 5%nat (example_stringify (error_object (lit "Channel not found")))],
     example_registry).
Proof.
  apply (unissued_channelId_is_not_found _ example_stringify
           (Some [4; 5; 6]%nat) 5%nat example_raw example_registry
           (JObject [(lit "type", JString (lit "message"));
                     (lit "channelId", JNumber (Frac 3 1));
                     (lit "userName", JString (lit "al"));
                     (lit "text", JString (lit "hi"))])
           (Frac 3 1) (lit "al") (lit "hi") reachable_example_registry).
  - vm_compute. reflexivity.
  - reflexivity.
  - repeat split.
  - discriminate.
  - discriminate.
  - intros z Hz. discriminate.
Defined.

(** ** The minimal variant *)

Lemma minimal_ok_start : minimal_ok Minimal.state_at_start.
Proof.
  constructor.
  - vm_compute. split; discriminate.
  - intros k channel Hin. simpl in Hin.
    destruct Hin as [H|[H|[]]]; injection H as <- <-.
    + exists 1. repeat split; try reflexivity; try lia. left. reflexivity.
    + exists 2. repeat split; try reflexivity; try lia. left. reflexivity.
  - simpl. repeat constructor; simpl; intros H;
      repeat (destruct H as [H|H]; [discriminate|]); destruct H.
Qed.

Lemma minimal_step_ok (Number : jsstring -> number) (op : MinimalOp)
    (state : Channels) :
  minimal_ok state -> minimal_ok (minimal_step Number op state).
Proof.
  intros [Hc Hk Hnd]. destruct op as [name|id newName|id|id message]; simpl.
  - unfold Minimal.post_channels.
    destruct (Minimal.assertChannelName name) as [s|e]; simpl;
      [|now constructor].
    constructor; simpl.
    + pose proof (js_succ_ge (nextChannelId state)).
      unfold js_succ in *. destruct (Z.ltb_spec (nextChannelId state) two53); lia.
    + intros k channel Hin. apply In_set in Hin as [[-> ->]|Hin].
      * exists (nextChannelId state). repeat split; [lia|].
        unfold js_succ. destruct (Z.ltb_spec (nextChannelId state) two53); lia.
      * destruct (Hk _ _ Hin) as (z & -> & Hid & Hz & Hlt).
        exists z. repeat split; try assumption.
        unfold js_succ. destruct (Z.ltb_spec (nextChannelId state) two53); lia.
    + now apply NoDup_keys_set.
  - unfold Minimal.patch_channels.
    destruct (JsMap.get (Number id) (channels state)) as [channel|] eqn:Hget;
      simpl; [|now constructor].
    destruct (Minimal.assertChannelName newName) as [s|e]; simpl;
      [|now constructor].
    constructor; simpl; [assumption| |now apply NoDup_keys_set].
    intros k c Hin. apply In_set in Hin as [[-> ->]|Hin]; [|eauto].
    apply get_In_entry in Hget.
    destruct (Hk _ _ Hget) as (z & Hkey & Hid & Hz). exists z. simpl. tauto.
  - unfold Minimal.delete_channels.
    destruct (JsMap.get (Number id) (channels state)); simpl; [|now constructor].
    constructor; simpl; [assumption| |now apply NoDup_keys_delete].
    intros k c Hin. apply In_delete in Hin. eauto.
  - destruct (JsMap.get id (channels state)) as [channel|] eqn:Hget;
      [|now constructor].
    constructor; simpl; [assumption| |now apply NoDup_keys_set].
    intros k c Hin. apply In_set in Hin as [[-> ->]|Hin]; [|eauto].
    apply get_In_entry in Hget.
    destruct (Hk _ _ Hget) as (z & -> & Hid & Hz). exists z. simpl. tauto.
Qed.

Lemma minimal_reachable_ok (Number : jsstring -> number) (state : Channels) :
  minimal_reachable Number state -> minimal_ok state.
Proof.
  intros [ops <-]. unfold minimal_run.
  generalize minimal_ok_start. generalize Minimal.state_at_start.
  induction ops as [|op ops IH]; intros state0 Hok; simpl; [assumption|].
  apply IH. now apply minimal_step_ok.
Qed.

(** In a reachable state of the minimal variant a channel is bound under its
    own id. *)
Lemma minimal_bound_under_id (Number : jsstring -> number) (state : Channels)
    (id : number) (channel : Channel.t) :
  minimal_reachable Number state ->
  JsMap.get id (channels state) = Some channel -> Channel.id channel = id.
Proof.
  intros Hreach Hget. apply minimal_reachable_ok in Hreach.
  apply get_In_entry in Hget.
  destruct (minimal_keys_issued _ Hreach _ _ Hget) as (z & -> & Hid & _).
  exact Hid.
Qed.

(** X16. In the minimal variant POST /channels checks only that [name] is
    a non-empty string: whatever its length and characters, and whether or not
    a live channel bears it, the request is answered 200 with a new channel
    under the counter's value; in a reachable state with the counter below
    2^53 that id is new and the channel is listed last. Without a [name], with
    a [name] that is not a string or with the empty string it is answered 400
    and nothing is written. *)
Theorem minimal_post_accepts_every_nonempty_string
    (Number : jsstring -> number) (state : Channels) :
  (forall s, s <> [] ->
     let channel := Channel.mk (Int (nextChannelId state)) s [] in
     exists state',
       Minimal.post_channels (Some (JString s)) state
       = (Return (ChannelBody channel), state')
       /\ JsMap.get (Int (nextChannelId state)) (channels state') = Some channel
       /\ nextChannelId state' = js_succ (nextChannelId state)
       /\ (minimal_reachable Number state -> nextChannelId state < two53 ->
           JsMap.values (channels state')
           = JsMap.values (channels state) ++ [channel]))
  /\ Minimal.post_channels None state
     = (Throw (mkHttpError 400 (MessageOf NameParameterMissing)), state)
  /\ Minimal.post_channels (Some (JString [])) state
     = (Throw (mkHttpError 400 (MessageOf NameNotEntered)), state)
  /\ (forall value, (forall s, value <> JString s) ->
        Minimal.post_channels (Some value) state
        = (Throw (mkHttpError 400 (MessageOf NameParameterNotString)), state)).
Proof.
  split; [|split; [reflexivity|split; [reflexivity|]]].
  - intros s Hs. unfold Minimal.post_channels. simpl.
    destruct s as [|u s]; [contradiction|]. simpl.
    eexists. split; [reflexivity|]. simpl.
    split; [apply get_set_same|]. split; [reflexivity|].
    intros Hreach Hlt. apply minimal_reachable_ok in Hreach.
    assert (Hfresh : JsMap.get (Int (nextChannelId state)) (channels state) = None).
    { apply get_None_keys. intros Hin. unfold JsMap.keys in Hin.
      apply in_map_iff in Hin as ([k c] & Hk & Hin). simpl in Hk. subst k.
      destruct (minimal_keys_issued _ Hreach _ _ Hin) as (z & Hz & _ & _ & Hb).
      injection Hz as <-. lia. }
    rewrite (set_absent _ _ _ Hfresh). unfold JsMap.values. now rewrite map_app.
  - intros value Hvalue. destruct value; try reflexivity.
    exfalso. now apply (Hvalue s).
Qed.

Lemma minimal_post_accepts_every_nonempty_string_witness :
  exists state',
    Minimal.post_channels (Some (JString (lit "a very long name, for general")))
      Minimal.state_at_start
    = (Return (ChannelBody
                 (Channel.mk (Int 3) (lit "a very long name, for general") [])),
       state')
    /\ JsMap.get (Int 3) (channels state')
       = Some (Channel.mk (Int 3) (lit "a very long name, for general") [])
    /\ nextChannelId state' = 4.
Proof.
  destruct (proj1 (minimal_post_accepts_every_nonempty_string (fun _ => NaN)
                     Minimal.state_at_start)
              (lit "a very long name, for general"))
    as (state' & Hpost & Hget & Hnext & _); [discriminate|].
  exists state'. split; [exact Hpost|]. split; [exact Hget | exact Hnext].
Defined.

(** X17. In a reachable state of the minimal variant, PATCH /channels/:id on
    a bound id with any non-empty string is answered 200 with an empty body:
    the channel keeps its id, its messages and its place and gets that name,
    even a name another channel bears; every other binding stays. With the
    name the channel already has, the registry is exactly as it was. *)
Theorem minimal_patch_renames_to_any_name (Number : jsstring -> number)
    (id s : jsstring) (channel : Channel.t) (state : Channels) :
  minimal_reachable Number state ->
  JsMap.get (Number id) (channels state) = Some channel ->
  s <> [] ->
  let renamed := Channel.mk (Channel.id channel) s (Channel.messages channel) in
  let state' := snd (Minimal.patch_channels Number id (Some (JString s)) state) in
  Minimal.patch_channels Number id (Some (JString s)) state
  = (Return EmptyBody, state')
  /\ JsMap.get (Number id) (channels state') = Some renamed
  /\ (forall id', Number id <> id' ->
        JsMap.get id' (channels state') = JsMap.get id' (channels state))
  /\ JsMap.keys (channels state') = JsMap.keys (channels state)
  /\ nextChannelId state' = nextChannelId state
  /\ (s = Channel.name channel -> state' = state).
Proof.
  intros Hreach Hget Hs renamed state'. subst renamed state'.
  pose proof (minimal_bound_under_id _ _ _ _ Hreach Hget) as Hid.
  assert (Hassert : Minimal.assertChannelName (Some (JString s)) = Return s).
  { destruct s; [contradiction | reflexivity]. }
  assert (Hpatch :
            Minimal.patch_channels Number id (Some (JString s)) state
            = (Return EmptyBody,
               mkChannels
                 (JsMap.set (Number id) (Channel.with_name channel s)
                    (channels state))
                 (nextChannelId state))).
  { unfold Minimal.patch_channels. rewrite Hget, Hassert, Hid. reflexivity. }
  rewrite Hpatch. simpl.
  split; [reflexivity|]. split; [apply get_set_same|].
  split; [intros id' Hne; now apply get_set_other|].
  split; [eapply keys_set_present; exact Hget|]. split; [reflexivity|].
  intros ->.
  replace (Channel.with_name channel (Channel.name channel)) with channel
    by now destruct channel.
  rewrite (set_same _ _ _ Hget). now destruct state.
Qed.

Lemma minimal_patch_renames_to_any_name_witness :
  Minimal.patch_channels (fun _ => Int 2) (lit "2") (Some (JString (lit "general")))
    Minimal.state_at_start
  = (Return EmptyBody,
     mkChannels
       [(Int 1, Channel.mk (Int 1) (lit "general") []);
        (Int 2, Channel.mk (Int 2) (lit "general") [])]
       3)
  /\ snd (Minimal.patch_channels (fun _ => Int 2) (lit "2")
            (Some (JString (lit "random"))) Minimal.state_at_start)
     = Minimal.state_at_start.
Proof.
  assert (Hreach : minimal_reachable (fun _ => Int 2) Minimal.state_at_start)
    by (exists []; reflexivity).
  pose proof (minimal_patch_renames_to_any_name (fun _ => Int 2) (lit "2")
                (lit "general") (Channel.mk (Int 2) (lit "random") [])
                Minimal.state_at_start Hreach eq_refl) as H.
  pose proof (minimal_patch_renames_to_any_name (fun _ => Int 2) (lit "2")
                (lit "random") (Channel.mk (Int 2) (lit "random") [])
                Minimal.state_at_start Hreach eq_refl) as H'.
  split.
  - apply H. discriminate.
  - apply H'; [discriminate | reflexivity].
Defined.

(** X18. In every state the minimal variant can reach, every channel is
    bound under its own id, no two listed channels have the same id, and every
    id is an integer from 1 up that the counter has passed (or the counter
    stands at 2^53). *)
Theorem minimal_reachable_invariant (Number : jsstring -> number)
    (state : Channels) :
  minimal_reachable Number state ->
  NoDup (map Channel.id (JsMap.values (channels state)))
  /\ (forall id channel,
        JsMap.get id (channels state) = Some channel ->
        Channel.id channel = id
        /\ exists z, id = Int z /\ 1 <= z
                     /\ (z < nextChannelId state \/ nextChannelId state = two53))
  /\ 1 <= nextChannelId state <= two53.
Proof.
  intros Hreach. pose proof (minimal_reachable_ok _ _ Hreach) as [Hc Hk Hnd].
  split; [|split; [|exact Hc]].
  - assert (Heq : map Channel.id (JsMap.values (channels state))
                  = JsMap.keys (channels state)).
    { unfold JsMap.values, JsMap.keys. rewrite map_map.
      apply map_ext_in. intros [k c] Hin. simpl.
      destruct (Hk _ _ Hin) as (z & -> & Hid & _). exact Hid. }
    now rewrite Heq.
  - intros id channel Hget. apply get_In_entry in Hget.
    destruct (Hk _ _ Hget) as (z & -> & Hid & Hz & Hb).
    split; [exact Hid|]. exists z. auto.
Qed.

Lemma minimal_reachable_invariant_witness :
  NoDup
    (map Channel.id
       (JsMap.values
          (channels
             (minimal_run (fun _ => Int 1)
                [MPost (Some (JString (lit "general"))); MDelete (lit "1")]
                Minimal.state_at_start)))).
Proof.
  apply (minimal_reachable_invariant (fun _ => Int 1)).
  exists [MPost (Some (JString (lit "general"))); MDelete (lit "1")].
  reflexivity.
Defined.


(** X20. POST /channels: without a [name] in the body it answers 400 'name
    parameter is missing'; with a [name] that is not a string, 400 'name
    parameter is not a string value'; with a valid name that no live channel
    bears, 200 with the new channel, which is then bound to the id the counter
    held; with any other string, 400 with the message of the validation error.
    In the three 400 cases the registry is as it was. *)
Theorem post_channels_answers (this : Channels) :
  post_channels None this
  = (Throw (mkHttpError 400 (MessageOf NameParameterMissing)), this)
  /\ (forall value, (forall s, value <> JString s) ->
        post_channels (Some value) this
        = (Throw (mkHttpError 400 (MessageOf NameParameterNotString)), this))
  /\ (forall s, valid_name s -> unused_name s this ->
        let channel := Channel.mk (Int (nextChannelId this)) s [] in
        exists this',
          post_channels (Some (JString s)) this
          = (Return (ChannelBody channel), this')
          /\ getChannel (Int (nextChannelId this)) this' = Some channel)
  /\ (forall s, ~ (valid_name s /\ unused_name s this) ->
        exists e,
          post_channels (Some (JString s)) this
          = (Throw (mkHttpError 400 (MessageOf e)), this)
          /\ kind_of e = ValidationError).
Proof.
  unfold post_channels. split; [reflexivity|]. split; [|split].
  - intros value Hvalue. destruct value; try reflexivity.
    exfalso. now apply (Hvalue s).
  - intros s Hv Hu. simpl. unfold create, bind.
    rewrite (validateChannelName_accepts _ _ Hv Hu). simpl.
    eexists. split; [reflexivity|]. unfold getChannel. simpl. apply get_set_same.
  - intros s Hbad. simpl.
    destruct (create_cases s this) as [[e He]|(Hchk & Hu & _)].
    + rewrite He. exists e. split; [reflexivity|].
      unfold create, bind in He. rewrite validateChannelName_unfold in He.
      destruct (Nat.eqb (List.length s) 0); [now injection He as <-|].
      destruct (Nat.ltb 15 (List.length s)); [now injection He as <-|].
      destruct (negb (name_regex_test s)); [now injection He as <-|].
      destruct (existsb _ _); [now injection He as <-|]. discriminate.
    + exfalso. apply Hbad. split; [now apply passes_name_checks_valid|assumption].
Qed.

Lemma post_channels_answers_witness :
  post_channels (Some (JBool true)) example_registry
  = (Throw (mkHttpError 400 (MessageOf NameParameterNotString)), example_registry)
  /\ (exists this',
        post_channels (Some (JString (lit "dev"))) example_registry
        = (Return (ChannelBody (Channel.mk (Int 3) (lit "dev") [])), this')
        /\ getChannel (Int 3) this' = Some (Channel.mk (Int 3) (lit "dev") []))
  /\ (exists e,
        post_channels (Some (JString (lit "random"))) example_registry
        = (Throw (mkHttpError 400 (MessageOf e)), example_registry)
        /\ kind_of e = ValidationError).
Proof.
  pose proof (post_channels_answers example_registry) as H.
  split; [|split].
  - apply (proj1 (proj2 H)). intros s. discriminate.
  - assert (Hv : valid_name (lit "dev")) by prove_valid_name.
    assert (Hu : unused_name (lit "dev") example_registry) by prove_unused_name.
    exact (proj1 (proj2 (proj2 H)) (lit "dev") Hv Hu).
  - apply (proj2 (proj2 (proj2 H))). intros [_ Hu].
    apply (Hu (Channel.mk (Int 2) (lit "random") [])); [|reflexivity].
    simpl. right. left. reflexivity.
Defined.
